(** * AlphaMail: the Next.js routes and the review card stack

    A shallow embedding of the three TypeScript units that decide how
    stored mail reaches the reviewer and what a review action does:

    - [GET /api/emails]        (the Query Gateway),
    - [POST /api/email-action] (the Disposition Handler),
    - [EmailCardStack]         (the client-side Review State Machine).

    Firestore documents and JSON bodies are dynamically typed in the
    source ([doc.data()] and [request.json()] are [any]), so both are
    embedded as small value languages with JavaScript's own truthiness,
    property lookup and string conversion written out. *)

From Stdlib Require Import List String Ascii ZArith Bool Lia DecimalString.
From Stdlib Require Import Sorted Permutation.
From Stdlib Require OrderedTypeEx.
From Stdlib Require QArith Lqa.
Import ListNotations.
Open Scope string_scope.
Open Scope Z_scope.

(** ** Firestore field values *)

(** The kinds of value a document field can hold that the routes can tell
    apart.  Numbers are the integral ones; a timestamp is the pair
    (seconds, nanoseconds) the SDK keeps; a map keeps its entries in key
    order, as the store does.  Bytes, references, geo points and arrays are
    left out: to the routes they behave like the primitives here.  A field
    that is not there at all is [None] at lookup, which is JavaScript's
    [undefined]. *)
#[local] Unset Elimination Schemes.
Inductive Value : Type :=
| VNull
| VBool (b : bool)
| VNum (n : Z)
| VTimestamp (seconds nanoseconds : Z)
| VStr (s : string)
| VMap (entries : list (string * Value)).
#[local] Set Elimination Schemes.

(** [doc.data()]: a plain object from field names to values. *)
Definition DocumentData : Type := list (string * Value).

(** A JavaScript value as the routes see it: [None] is [undefined]. *)
Definition JsValue : Type := option Value.

(** [obj[name]] on a plain object: the own property, or [undefined]. *)
Fixpoint field (name : string) (obj : list (string * Value)) : JsValue :=
  match obj with
  | [] => None
  | (k, v) :: rest => if String.eqb k name then Some v else field name rest
  end.

(** JavaScript's ToBoolean.  Objects (timestamps, maps) are always truthy. *)
Definition truthy (v : JsValue) : bool :=
  match v with
  | None => false
  | Some VNull => false
  | Some (VBool b) => b
  | Some (VNum n) => negb (n =? 0)
  | Some (VStr s) => negb (String.eqb s "")
  | Some (VTimestamp _ _) => true
  | Some (VMap _) => true
  end.

(** [a || b]: the left operand when truthy, else the right one. *)
Definition js_or (a b : JsValue) : JsValue := if truthy a then a else b.

(** ** The store's order on values

    Firestore sorts values of mixed kinds by kind first
    (null < boolean < number < timestamp < string < map) and by value
    inside a kind; maps compare entry by entry, key before value, a
    proper prefix first. *)

Definition kind_rank (v : Value) : nat :=
  match v with
  | VNull => 0
  | VBool _ => 1
  | VNum _ => 2
  | VTimestamp _ _ => 3
  | VStr _ => 4
  | VMap _ => 5
  end%nat.

Definition lex (c : comparison) (rest : comparison) : comparison :=
  match c with Eq => rest | _ => c end.

(** Entry-by-entry comparison of two maps, given the comparison of values. *)
Definition entries_compare (cmp : Value -> Value -> comparison)
  : list (string * Value) -> list (string * Value) -> comparison :=
  fix go (l1 l2 : list (string * Value)) {struct l1} : comparison :=
    match l1, l2 with
    | [], [] => Eq
    | [], _ :: _ => Lt
    | _ :: _, [] => Gt
    | (k1, v1) :: r1, (k2, v2) :: r2 =>
        lex (String.compare k1 k2) (lex (cmp v1 v2) (go r1 r2))
    end.

Fixpoint value_compare (a b : Value) {struct a} : comparison :=
  match a, b with
  | VNull, VNull => Eq
  | VBool x, VBool y => Bool.compare x y
  | VNum x, VNum y => Z.compare x y
  | VTimestamp s1 n1, VTimestamp s2 n2 => lex (Z.compare s1 s2) (Z.compare n1 n2)
  | VStr x, VStr y => String.compare x y
  | VMap m1, VMap m2 => entries_compare value_compare m1 m2
  | _, _ => Nat.compare (kind_rank a) (kind_rank b)
  end.

(** [value_leb a b]: [a] sorts no later than [b] in ascending order. *)
Definition value_leb (a b : Value) : bool :=
  match value_compare a b with Gt => false | _ => true end.

(** Firestore's [==] filter: same kind, same value. *)
Definition value_eqb (a b : Value) : bool :=
  match value_compare a b with Eq => true | _ => false end.

(** ** Queries *)

(** The test of [.where(name, "==", v)] on one document: the field is there
    and holds an equal value. *)
Definition field_is (name : string) (v : Value) (d : DocumentData) : bool :=
  match field name d with
  | Some w => value_eqb w v
  | None => false
  end.

(** [.where(name, "==", v)]. *)
Definition where_eq (name : string) (v : Value) (docs : list DocumentData)
  : list DocumentData :=
  filter (field_is name v) docs.

(** Insertion into a list already in descending key order; a new entry
    goes in front of the entries with an equal key. *)
Fixpoint insert_desc (x : Value * DocumentData) (l : list (Value * DocumentData))
  : list (Value * DocumentData) :=
  match l with
  | [] => [x]
  | y :: rest =>
      if value_leb (fst y) (fst x) then x :: y :: rest
      else y :: insert_desc x rest
  end.

Fixpoint sort_desc (l : list (Value * DocumentData)) : list (Value * DocumentData) :=
  match l with
  | [] => []
  | x :: rest => insert_desc x (sort_desc rest)
  end.

(** A document paired with its sort key, when it has one. *)
Definition keyed (name : string) (d : DocumentData) : option (Value * DocumentData) :=
  match field name d with
  | Some k => Some (k, d)
  | None => None
  end.

Fixpoint keyed_docs (name : string) (docs : list DocumentData)
  : list (Value * DocumentData) :=
  match docs with
  | [] => []
  | d :: rest =>
      match keyed name d with
      | Some kd => kd :: keyed_docs name rest
      | None => keyed_docs name rest
      end
  end.

(** [.orderBy(name, "desc")].  An ordered Firestore query is answered from
    the index on [name], so a document that lacks the field is not in the
    result; the others come largest key first, equal keys in the order the
    store lists them. *)
Definition orderBy_desc (name : string) (docs : list DocumentData)
  : list DocumentData :=
  map snd (sort_desc (keyed_docs name docs)).

(** [.limit(n)]. *)
Definition limit (n : nat) (docs : list DocumentData) : list DocumentData :=
  firstn n docs.

(** ** Dates *)

(** A JavaScript [Date]: a time value in milliseconds since the epoch, or
    the invalid date. *)
Inductive Date : Type :=
| ValidDate (ms : Z)
| InvalidDate.

(** [new Date(t)] clips: beyond 8.64e15 ms either way the date is invalid. *)
Definition new_Date (t : Z) : Date :=
  if Z.abs t <=? 8640000000000000 then ValidDate t else InvalidDate.

(** [Timestamp.toDate()] of the server SDK:
    [new Date(seconds * 1000 + Math.round(nanoseconds / 1e6))]. *)
Definition Timestamp_toDate (seconds nanoseconds : Z) : Date :=
  new_Date (seconds * 1000 + (nanoseconds + 500000) / 1000000).

Definition digit (d : Z) : ascii := ascii_of_nat (48 + Z.to_nat d).

(** [n] in decimal on exactly [width] digits, zero padded. *)
Fixpoint pad (width : nat) (n : Z) : string :=
  match width with
  | O => ""
  | S w => pad w (n / 10) ++ String (digit (n mod 10)) ""
  end.

(** Proleptic Gregorian (year, month, day) of a day count from the epoch. *)
Definition civil_from_days (days : Z) : Z * Z * Z :=
  let z := days + 719468 in
  let era := z / 146097 in
  let doe := z - era * 146097 in
  let yoe := (doe - doe / 1460 + doe / 36524 - doe / 146096) / 365 in
  let doy := doe - (365 * yoe + yoe / 4 - yoe / 100) in
  let mp := (5 * doy + 2) / 153 in
  let d := doy - (153 * mp + 2) / 5 + 1 in
  let m := if mp <? 10 then mp + 3 else mp - 9 in
  let y := yoe + era * 400 + (if m <=? 2 then 1 else 0) in
  (y, m, d).

Definition iso_year (y : Z) : string :=
  if (0 <=? y) && (y <=? 9999) then pad 4 y
  else (if y <? 0 then "-" else "+") ++ pad 6 (Z.abs y).

(** The text [toISOString()] gives for a valid time value:
    [YYYY-MM-DDTHH:mm:ss.sssZ], always in UTC. *)
Definition iso_string (ms : Z) : string :=
  let '(y, m, d) := civil_from_days (ms / 86400000) in
  let t := ms mod 86400000 in
  iso_year y ++ "-" ++ pad 2 m ++ "-" ++ pad 2 d ++ "T"
    ++ pad 2 (t / 3600000) ++ ":" ++ pad 2 (t / 60000 mod 60) ++ ":"
    ++ pad 2 (t / 1000 mod 60) ++ "." ++ pad 3 (t mod 1000) ++ "Z".

(** ** Exceptions *)

(** What a route can have thrown at it inside its [try] block. *)
Inductive Thrown : Type :=
| TypeError (msg : string)
| RangeError (msg : string)
| SyntaxError (msg : string)
| StoreError (msg : string).

(** [(error as Error).message]. *)
Definition error_message (e : Thrown) : string :=
  match e with
  | TypeError m | RangeError m | SyntaxError m | StoreError m => m
  end.

(** A computation that returns a value or throws. *)
Definition Exc (A : Type) : Type := (Thrown + A)%type.

Definition ret {A : Type} (a : A) : Exc A := inr a.
Definition throw {A : Type} (e : Thrown) : Exc A := inl e.
Definition bind {A B : Type} (c : Exc A) (k : A -> Exc B) : Exc B :=
  match c with
  | inl e => inl e
  | inr a => k a
  end.

Notation "x <- c ;; k" := (bind c (fun x => k))
  (at level 61, c at next level, right associativity).

(** [array.map(f)] when [f] may throw: the first throw ends the loop. *)
Fixpoint map_exc {A B : Type} (f : A -> Exc B) (l : list A) : Exc (list B) :=
  match l with
  | [] => ret []
  | a :: rest =>
      b <- f a ;;
      bs <- map_exc f rest ;;
      ret (b :: bs)
  end.

(** [date.toISOString()]: a RangeError on the invalid date. *)
Definition Date_toISOString (d : Date) : Exc string :=
  match d with
  | ValidDate ms => ret (iso_string ms)
  | InvalidDate => throw (RangeError "Invalid time value")
  end.

(** ** The Query Gateway: [GET /api/emails] *)

(** The object built for each document.  The data is [any] in the source,
    so the members copied through keep whatever the document holds. *)
Record EmailSummary : Type := {
  id : JsValue;
  subject : JsValue;
  sender : JsValue;
  summary : JsValue;
  fullContent : JsValue;
  receivedDate : string;
  actionRequired : JsValue;
  actionDescription : option string;
  status : string
}.

(** What [x?.toDate] evaluates to. *)
Inductive Member : Type :=
| NoMember
| ToDateMethod (seconds nanoseconds : Z)
| OwnMember (v : Value).

(** [x?.toDate]: [undefined] on [undefined] and [null]; on a primitive or a
    map without such an entry the prototype has nothing by that name; a
    Timestamp has the method; a map with a [toDate] entry gives the entry. *)
Definition optional_toDate (x : JsValue) : Member :=
  match x with
  | None | Some VNull => NoMember
  | Some (VBool _) | Some (VNum _) | Some (VStr _) => NoMember
  | Some (VTimestamp s n) => ToDateMethod s n
  | Some (VMap entries) =>
      match field "toDate" entries with
      | Some v => OwnMember v
      | None => NoMember
      end
  end.

Definition member_truthy (m : Member) : bool :=
  match m with
  | NoMember => false
  | ToDateMethod _ _ => true
  | OwnMember v => truthy (Some v)
  end.

(** [x.toDate()]: only the method can be called. *)
Definition call_toDate (m : Member) : Exc Date :=
  match m with
  | ToDateMethod s n => ret (Timestamp_toDate s n)
  | _ => throw (TypeError "data.received_date.toDate is not a function")
  end.

(** Lines 44-46: the [receivedDate] of one document.  [now] is what
    [new Date()] reads; one reading stands for the whole request. *)
Definition received_date_iso (now : Z) (data : DocumentData) : Exc string :=
  let received_date := field "received_date" data in
  if member_truthy (optional_toDate received_date)
  then d <- call_toDate (optional_toDate received_date) ;; Date_toISOString d
  else Date_toISOString (ValidDate now).

(** Lines 40-58: the callback of [emailsSnapshot.docs.map]. *)
Definition to_summary (now : Z) (data : DocumentData) : Exc EmailSummary :=
  receivedDate <- received_date_iso now data ;;
  ret {| id := field "gmail_id" data;
         subject := field "subject" data;
         sender := field "sender" data;
         summary := js_or (field "summary" data) (field "snippet" data);
         fullContent := field "body" data;
         receivedDate := receivedDate;
         actionRequired := js_or (field "is_important" data) (Some (VBool false));
         actionDescription :=
           if truthy (field "is_important" data)
           then Some "This email is marked as important."
           else None;
         status := "none" |}.

(** The document store as the routes find it: the [emails] collection, or
    a backend that cannot be reached (every call on it rejects). *)
Inductive Firestore : Type :=
| Online (emails : list DocumentData)
| Offline (reason : string).

Definition userId : Value := VStr "default".

(** Lines 26-32: the query, on the documents of the collection. *)
Definition emails_query (docs : list DocumentData) : list DocumentData :=
  limit 20
    (orderBy_desc "received_date"
       (where_eq "discard" (VBool false)
          (where_eq "is_read" (VBool false)
             (where_eq "user_id" userId docs)))).

(** Line 33: [.get()]. *)
Definition query_get (db : Firestore) : Exc (list DocumentData) :=
  match db with
  | Online docs => ret (emails_query docs)
  | Offline reason => throw (StoreError reason)
  end.

(** A [NextResponse.json(body, { status })]. *)
Record Response (B : Type) : Type := { http_status : Z; body : B }.
Arguments http_status {B} _.
Arguments body {B} _.

Inductive EmailsBody : Type :=
| EmailsJson (emails : list EmailSummary)
| FailureJson (message error : string).

(** The [try] block of [GET]. *)
Definition GET_try (db : Firestore) (now : Z) : Exc (Response EmailsBody) :=
  docs <- query_get db ;;
  match docs with
  | [] => ret {| http_status := 200; body := EmailsJson [] |}
  | _ :: _ =>
      emails <- map_exc (to_summary now) docs ;;
      ret {| http_status := 200; body := EmailsJson emails |}
  end.

(** [GET]: the [try] block, and the [catch] that turns any throw into the
    500 answer (it also writes the error to the server console, which is
    not kept here). *)
Definition GET (db : Firestore) (now : Z) : Response EmailsBody :=
  match GET_try db now with
  | inr response => response
  | inl error =>
      {| http_status := 500;
         body := FailureJson "Failed to fetch emails from Firestore."
                             (error_message error) |}
  end.

(** ** The Disposition Handler: [POST /api/email-action] *)

(** A parsed JSON text.  Numbers are the integral ones, printed in plain
    decimal. *)
#[local] Unset Elimination Schemes.
Inductive Json : Type :=
| JNull
| JBool (b : bool)
| JNum (n : Z)
| JStr (s : string)
| JArr (items : list Json)
| JObj (members : list (string * Json)).
#[local] Set Elimination Schemes.

(** [obj[name]] on a parsed object. *)
Fixpoint member (name : string) (members : list (string * Json)) : option Json :=
  match members with
  | [] => None
  | (k, v) :: rest => if String.eqb k name then Some v else member name rest
  end.

(** [v.name] for a name no prototype defines: an own member of an object,
    [undefined] on anything else.  (Reading a member of [null] throws; the
    caller rules that out first.) *)
Definition get_member (name : string) (v : Json) : option Json :=
  match v with
  | JObj members => member name members
  | _ => None
  end.

(** [Array.prototype.join] with the default separator, given the string
    conversion of an item: [null] items give the empty string. *)
Definition join (str : Json -> Exc string) : list Json -> Exc string :=
  fix go (l : list Json) : Exc string :=
    match l with
    | [] => ret ""
    | x :: rest =>
        first <- match x with JNull => ret "" | _ => str x end ;;
        match rest with
        | [] => ret first
        | _ :: _ => others <- go rest ;; ret (first ++ "," ++ others)
        end
    end.

(** JavaScript's ToString, as a template literal applies it.  An array
    joins its items.  A parsed object answers with
    [Object.prototype.toString] unless it has a member called [toString] of
    its own: that member is data, not a function, and with no callable
    [toString] the conversion throws. *)
Fixpoint to_string (v : Json) : Exc string :=
  match v with
  | JNull => ret "null"
  | JBool true => ret "true"
  | JBool false => ret "false"
  | JNum n => ret (NilZero.string_of_int (Z.to_int n))
  | JStr s => ret s
  | JArr items => join to_string items
  | JObj members =>
      match member "toString" members with
      | Some _ => throw (TypeError "Cannot convert object to primitive value")
      | None => ret "[object Object]"
      end
  end.

(** [`${x}`] where [x] may be [undefined]. *)
Definition interpolate (x : option Json) : Exc string :=
  match x with
  | None => ret "undefined"
  | Some v => to_string v
  end.

(** [const { emailId, action } = v]: a TypeError on [null], else the two
    members. *)
Definition destructure (v : Json) : Exc (option Json * option Json) :=
  match v with
  | JNull => throw (TypeError "Cannot destructure property 'emailId' of 'null'")
  | _ => ret (get_member "emailId" v, get_member "action" v)
  end.

Record ActionBody : Type := { success : bool; message : string }.

Inductive ConsoleLine : Type :=
| console_log (text : string)
| console_error (text : string) (error : Thrown).

(** What the handler can reach: the store and the server console. *)
Record Server : Type := { firestore : Firestore; console : list ConsoleLine }.

Definition write_console (line : ConsoleLine) (sv : Server) : Server :=
  {| firestore := firestore sv; console := console sv ++ [line] |}.

(** The [try] block of [POST]: [request_json] is what
    [await request.json()] settles to.  The only effect is the log line. *)
Definition POST_try (request_json : Exc Json) (sv : Server)
  : Exc (Response ActionBody * Server) :=
  parsed <- request_json ;;
  fields <- destructure parsed ;;
  let '(emailId, action) := fields in
  a <- interpolate action ;;
  i <- interpolate emailId ;;
  ret ({| http_status := 200;
          body := {| success := true; message := "Action disabled." |} |},
       write_console
         (console_log ("Received action '" ++ a ++ "' for email '" ++ i
                         ++ "'. Action is currently disabled."))
         sv).

(** [POST]: the [try] block and its [catch]. *)
Definition POST (request_json : Exc Json) (sv : Server)
  : Response ActionBody * Server :=
  match POST_try request_json sv with
  | inr result => result
  | inl error =>
      ({| http_status := 500;
          body := {| success := false; message := "Internal Server Error" |} |},
       write_console (console_error "Error processing email action:" error) sv)
  end.

(** The three review actions. *)
Inductive Action : Type := keep | discard | flag.

Definition action_name (a : Action) : string :=
  match a with
  | keep => "keep"
  | discard => "discard"
  | flag => "flag"
  end.

(** The body the client sends: [JSON.stringify({ emailId, action })], parsed. *)
Definition action_request (emailId : string) (a : Action) : Exc Json :=
  ret (JObj [("emailId", JStr emailId); ("action", JStr (action_name a))]).

(** ** The Review State Machine: [EmailCardStack] *)

Module CardStack.

(** [lib/types.ts]. *)
Inductive Status : Type := status_none | status_flag | status_keep | status_discard.

Record EmailSummary : Type := {
  id : string;
  subject : string;
  sender : string;
  summary : string;
  receivedDate : string;
  actionRequired : bool;
  fullContent : string;
  actionDescription : option string;
  status : Status
}.

(** How a [fetch] can settle: a response with its [ok] flag and text, or a
    rejection. *)
Inductive FetchOutcome : Type :=
| Responded (ok : bool) (text : string)
| Rejected (error : string).

(** The two [useState] cells, the requests sent so far and the browser
    console. *)
Record State : Type := {
  emails : list EmailSummary;
  exitDirection : option Action;
  sent : list (string * Action);
  browser_console : list string
}.

Definition initial (initialEmails : list EmailSummary) : State :=
  {| emails := initialEmails; exitDirection := None;
     sent := []; browser_console := [] |}.

(** [handleAction] up to its first [await]: both state updates are queued
    and the request leaves, all inside the event handler. *)
Definition handleAction_begin (emailId : string) (action : Action) (st : State)
  : State :=
  {| emails := filter (fun email => negb (String.eqb (id email) emailId)) (emails st);
     exitDirection := Some action;
     sent := sent st ++ [(emailId, action)];
     browser_console := browser_console st |}.

(** [handleAction] after the [await]: a response that is not [ok] and a
    rejected fetch are written to the console; nothing else happens. *)
Definition handleAction_settle (outcome : FetchOutcome) (st : State) : State :=
  match outcome with
  | Responded true _ => st
  | Responded false text =>
      {| emails := emails st; exitDirection := exitDirection st; sent := sent st;
         browser_console :=
           browser_console st ++ ["Failed to save action to backend: " ++ text] |}
  | Rejected error =>
      {| emails := emails st; exitDirection := exitDirection st; sent := sent st;
         browser_console :=
           browser_console st ++ ["Error communicating with backend: " ++ error] |}
  end.

(** [emails[emails.length - 1]]; [None] is [undefined]. *)
Definition top (l : list EmailSummary) : option EmailSummary :=
  nth_error l (List.length l - 1).

(** The card the component renders: [emails.length > 0 && <EmailCard .../>]. *)
Definition visible (st : State) : option EmailSummary :=
  if (0 <? List.length (emails st))%nat then top (emails st) else None.

(** [emails.length === 0 && <p>All emails have been reviewed!</p>]. *)
Definition all_reviewed (st : State) : bool :=
  (List.length (emails st) =? 0)%nat.

(** [onAction] of the rendered card:
    [handleAction(emails[emails.length - 1].id, action)].  With no card on
    screen there is nothing to act on. *)
Definition onAction (action : Action) (st : State) : State :=
  match visible st with
  | Some email => handleAction_begin (id email) action st
  | None => st
  end.

End CardStack.

(** ** Vocabulary of the statements *)

(** The gateway's reading of "unread": both flags it filters on are stored
    as [false]. *)
Definition is_unread (d : DocumentData) : bool :=
  field_is "is_read" (VBool false) d && field_is "discard" (VBool false) d.

(** The one owner the route serves. *)
Definition owned (d : DocumentData) : bool := field_is "user_id" userId d.

Definition has_field (name : string) (d : DocumentData) : bool :=
  match field name d with
  | Some _ => true
  | None => false
  end.

(** A stored document the query can return. *)
Definition query_matches (d : DocumentData) : bool :=
  owned d && is_unread d && has_field "received_date" d.

(** Keys never grow along the list. *)
Definition key_desc (x y : Value * DocumentData) : Prop :=
  value_leb (fst y) (fst x) = true.

(** [d1] may come before [d2] in a newest-first page: both carry a
    [received_date], and that of [d2] is no later in the store's order. *)
Definition date_desc (d1 d2 : DocumentData) : Prop :=
  exists k1 k2,
    field "received_date" d1 = Some k1 /\
    field "received_date" d2 = Some k2 /\
    value_leb k2 k1 = true.

(** The four dispositions of the specification and the one each action
    asks for. *)
Inductive Disposition : Type := unread | kept | discarded | flagged.

Definition target (a : Action) : Disposition :=
  match a with
  | keep => kept
  | discard => discarded
  | flag => flagged
  end.

(** The store keeps no disposition field; a reading of documents as
    dispositions is admissible when it agrees with the gateway on what is
    unread. *)
Definition reads_unread (disposition_of : DocumentData -> Disposition) : Prop :=
  forall d, is_unread d = true -> disposition_of d = unread.

(** The documents of the store, none when it cannot be reached. *)
Definition stored (db : Firestore) : list DocumentData :=
  match db with
  | Online docs => docs
  | Offline _ => []
  end.

(** A [received_date] the callback gets through: a timestamp inside the
    range of [Date], or any value without a truthy [toDate] of its own. *)
Definition plain_date (d : DocumentData) : bool :=
  match field "received_date" d with
  | Some (VTimestamp s n) =>
      match Timestamp_toDate s n with
      | ValidDate _ => true
      | InvalidDate => false
      end
  | x => negb (member_truthy (optional_toDate x))
  end.

(** A string with at least one character. *)
Definition nonempty_text (v : JsValue) : bool :=
  match v with
  | Some (VStr s) => negb (String.eqb s "")
  | _ => false
  end.




Definition action_disabled : Response ActionBody :=
  {| http_status := 200;
     body := {| success := true; message := "Action disabled." |} |}.

Definition internal_server_error : Response ActionBody :=
  {| http_status := 500;
     body := {| success := false; message := "Internal Server Error" |} |}.

(** Whether a card with this id has been acted on: such a card may still be
    on screen, leaving. *)
Definition is_leaving (emailId : string) (st : CardStack.State) : bool :=
  existsb (fun request => String.eqb (fst request) emailId) (CardStack.sent st).

(** Events of the review session.  [UserAction] is a gesture on the card
    the component renders now.  [LeavingCardAction] is a gesture on a card
    that was acted on and is still mounted while it leaves: [AnimatePresence]
    keeps it with the [onAction] of the render that showed it, so
    [handleAction] runs with the id of that card again.  [FetchSettled] is a
    request coming back. *)
Inductive Event : Type :=
| UserAction (action : Action)
| LeavingCardAction (emailId : string) (action : Action)
| FetchSettled (outcome : CardStack.FetchOutcome).

Definition step (st : CardStack.State) (ev : Event) : CardStack.State :=
  match ev with
  | UserAction action => CardStack.onAction action st
  | LeavingCardAction emailId action =>
      if is_leaving emailId st
      then CardStack.handleAction_begin emailId action st
      else st
  | FetchSettled outcome => CardStack.handleAction_settle outcome st
  end.

Definition run (evs : list Event) (st : CardStack.State) : CardStack.State :=
  fold_left step evs st.

(** ** Sample stores *)

Definition timestamp_2024 : Value := VTimestamp 1704067200 0.

(** A document as the ingestion job writes it. *)
Definition mail (gmail_id : string) (is_read discard : bool) (date : Value)
           (summary snippet : string) : DocumentData :=
  [("gmail_id", VStr gmail_id); ("user_id", VStr "default");
   ("subject", VStr "Hello"); ("sender", VStr "a@example.com");
   ("body", VStr "Body text"); ("summary", VStr summary);
   ("snippet", VStr snippet); ("received_date", date);
   ("is_read", VBool is_read); ("discard", VBool discard);
   ("is_important", VBool false)].

Definition mail_m1 : DocumentData :=
  mail "m1" false false timestamp_2024 "A short summary" "Body".

Definition mail_m2 : DocumentData :=
  mail "m2" false false (VTimestamp 1704153600 0) "" "Body te".

Definition mail_read : DocumentData :=
  mail "m3" true false (VTimestamp 1704240000 0) "Seen" "Body".

(** Summary and snippet both empty: a message without text. *)
Definition mail_blank : DocumentData :=
  mail "m4" false false timestamp_2024 "" "".

(** [received_date] stored as a map that happens to have a [toDate] entry. *)
Definition mail_odd_date : DocumentData :=
  mail "m5" false false (VMap [("toDate", VBool true)]) "Summary" "Body".

Definition sample_store : list DocumentData := [mail_m1; mail_read; mail_m2].

Definition sample_now : Z := 1704300000000.

(** The page [GET] serves from [sample_store]. *)
Definition sample_page : list EmailSummary :=
  Eval vm_compute in
    match body (GET (Online sample_store) sample_now) with
    | EmailsJson emails => emails
    | FailureJson _ _ => []
    end.

(** An unread document of the owner with no [received_date] field. *)
Definition undated (n : nat) : DocumentData :=
  [("gmail_id", VStr ("u" ++ NilZero.string_of_int (Z.to_int (Z.of_nat n))));
   ("user_id", VStr "default"); ("subject", VStr "Hello");
   ("summary", VStr "A short summary"); ("snippet", VStr "Body");
   ("is_read", VBool false); ("discard", VBool false)].

Definition undated25 : list DocumentData := map undated (seq 1 25).

(** An unread, dated document of the owner, one day per index. *)
Definition dated (n : nat) : DocumentData :=
  mail ("d" ++ NilZero.string_of_int (Z.to_int (Z.of_nat n))) false false
       (VTimestamp (1704067200 + 86400 * Z.of_nat n) 0) "A short summary" "Body".

Definition dated25 : list DocumentData := map dated (seq 1 25).

Definition dated25_page : list EmailSummary :=
  Eval vm_compute in
    match body (GET (Online dated25) sample_now) with
    | EmailsJson emails => emails
    | FailureJson _ _ => []
    end.

Definition sample_server : Server :=
  {| firestore := Online sample_store; console := [] |}.

Definition card (id : string) : CardStack.EmailSummary :=
  {| CardStack.id := id; CardStack.subject := "Hello";
     CardStack.sender := "a@example.com"; CardStack.summary := "A short summary";
     CardStack.receivedDate := "2024-01-01T00:00:00.000Z";
     CardStack.actionRequired := false; CardStack.fullContent := "Body text";
     CardStack.actionDescription := None; CardStack.status := CardStack.status_none |}.

Definition two_cards : CardStack.State := CardStack.initial [card "m1"; card "m2"].

(** ** The card: [EmailCard] *)

Module EmailCard.
Import Stdlib.QArith.QArith.

(** A JavaScript number as a drag offset can be: a finite value, an
    infinity or NaN. *)
Inductive JsNumber : Type :=
| Finite (q : Q)
| PosInfinity
| NegInfinity
| NaN.

Definition DRAG_THRESHOLD : Q := 100 # 1.

(** [x > t] and [x < t] for a finite [t]; both are false on NaN. *)
Definition gt (x : JsNumber) (t : Q) : bool :=
  match x with
  | Finite q => negb (Qle_bool q t)
  | PosInfinity => true
  | NegInfinity | NaN => false
  end.

Definition lt (x : JsNumber) (t : Q) : bool :=
  match x with
  | Finite q => negb (Qle_bool t q)
  | NegInfinity => true
  | PosInfinity | NaN => false
  end.

(** [onDragEnd]: the action handed to [handleAction], if any. *)
Definition onDragEnd (offset_x : JsNumber) : option Action :=
  if gt offset_x DRAG_THRESHOLD then Some keep
  else if lt offset_x (- DRAG_THRESHOLD) then Some discard
  else None.

(** What the user can do to a card. *)
Inductive Gesture : Type :=
| DoubleClickCard
| DoubleClickHandle
| DragEnd (offset_x : JsNumber)
| ClickExpand.

(** The argument [handleAction] is called with, for the gestures that call
    it.  The handle stops the propagation of its double click, so the card's
    own handler does not fire a second time. *)
Definition handled (g : Gesture) : option Action :=
  match g with
  | DoubleClickCard => Some flag
  | DoubleClickHandle => Some flag
  | DragEnd offset_x => onDragEnd offset_x
  | ClickExpand => None
  end.

(** Lines 97-104: the text of the red box, [None] when there is no box. *)
Definition action_box (email : CardStack.EmailSummary) : option string :=
  if CardStack.actionRequired email
  then Some (match CardStack.actionDescription email with
             | Some text =>
                 if String.eqb text "" then "No specific action provided." else text
             | None => "No specific action provided."
             end)
  else None.

End EmailCard.

(** A gesture on the card the stack shows: [handleAction] of the card calls
    the [onAction] the stack passed in. *)
Definition gesture (g : EmailCard.Gesture) (st : CardStack.State) : CardStack.State :=
  match EmailCard.handled g with
  | Some action => CardStack.onAction action st
  | None => st
  end.

(** ** The page: [HomePage] *)

Module HomePage.

(** How the load can go.  [emails_of_json] is the evaluation of
    [(await response.json()).emails]: a throw when the body is not JSON or
    is [null], [None] when the parsed body has no such member.  A list is
    read at the type the page declares for it. *)
Inductive FetchOutcome : Type :=
| Rejected (error : string)
| Responded (ok : bool) (emails_of_json : Exc (option (list CardStack.EmailSummary))).

(** The two [useState] cells and the browser console; [None] in [emails] is
    [undefined]. *)
Record State : Type := {
  emails : option (list CardStack.EmailSummary);
  isLoading : bool;
  browser_console : list string
}.

Definition initial : State :=
  {| emails := Some []; isLoading := true; browser_console := [] |}.

(** The [catch] and [finally] of [fetchEmails]; [text] stands for the
    error object the console is given. *)
Definition log_failure (text : string) (st : State) : State :=
  {| emails := emails st; isLoading := false;
     browser_console := browser_console st ++ ["Error fetching emails: " ++ text] |}.

(** [fetchEmails], from the moment the fetch settles: [try], [catch] and
    [finally]. *)
Definition fetchEmails (outcome : FetchOutcome) (st : State) : State :=
  match outcome with
  | Rejected error => log_failure error st
  | Responded false _ => log_failure "Failed to fetch emails" st
  | Responded true (inl error) => log_failure (error_message error) st
  | Responded true (inr data_emails) =>
      {| emails := data_emails; isLoading := false;
         browser_console := browser_console st |}
  end.

(** What the page shows.  The stack keeps its own state from the list it is
    mounted with; mounted with [undefined] it throws on [emails.length]. *)
Inductive View : Type :=
| LoadingView
| StackView (stack : CardStack.State)
| RenderError.

Definition render (st : State) : View :=
  if isLoading st then LoadingView
  else match emails st with
       | Some l => StackView (CardStack.initial l)
       | None => RenderError
       end.

End HomePage.

(** ** From the route to the page *)

Definition wire_status (s : string) : option CardStack.Status :=
  if String.eqb s "none" then Some CardStack.status_none
  else if String.eqb s "flag" then Some CardStack.status_flag
  else if String.eqb s "keep" then Some CardStack.status_keep
  else if String.eqb s "discard" then Some CardStack.status_discard
  else None.

(** One email after [JSON.stringify] on the server and [response.json()]
    on the client, read at the type [lib/types.ts] gives it.  Strings and
    booleans arrive as they left and an [undefined] member is dropped; a
    payload whose members are of other kinds is outside the interface and is
    not given a reading. *)
Definition wire (e : EmailSummary) : option CardStack.EmailSummary :=
  match id e, subject e, sender e, summary e, fullContent e,
        actionRequired e, wire_status (status e) with
  | Some (VStr i), Some (VStr sj), Some (VStr sd), Some (VStr sm),
    Some (VStr fc), Some (VBool ar), Some st =>
      Some {| CardStack.id := i; CardStack.subject := sj; CardStack.sender := sd;
              CardStack.summary := sm; CardStack.receivedDate := receivedDate e;
              CardStack.actionRequired := ar; CardStack.fullContent := fc;
              CardStack.actionDescription := actionDescription e;
              CardStack.status := st |}
  | _, _, _, _, _, _, _ => None
  end.

Fixpoint wire_all (es : list EmailSummary) : option (list CardStack.EmailSummary) :=
  match es with
  | [] => Some []
  | e :: rest =>
      match wire e, wire_all rest with
      | Some c, Some cs => Some (c :: cs)
      | _, _ => None
      end
  end.

(** [response.ok]. *)
Definition response_ok {B : Type} (r : Response B) : bool :=
  (200 <=? http_status r) && (http_status r <=? 299).

(** What [fetch("/api/emails")] settles to when the route answers [r]; the
    failure body has no [emails] member. *)
Definition deliver (r : Response EmailsBody) : option HomePage.FetchOutcome :=
  match body r with
  | EmailsJson es =>
      match wire_all es with
      | Some cards => Some (HomePage.Responded (response_ok r) (inr (Some cards)))
      | None => None
      end
  | FailureJson _ _ => Some (HomePage.Responded (response_ok r) (inr None))
  end.

(** The server handling the requests of a review session one after the
    other. *)
Definition serve_actions (requests : list (string * Action)) (sv : Server) : Server :=
  fold_left (fun sv request => snd (POST (action_request (fst request) (snd request)) sv))
            requests sv.

(** ** More vocabulary *)

(** Whether the gateway can serve from this store: it is reachable and every
    date on the page is plain. *)
Definition servable (db : Firestore) : bool :=
  match db with
  | Online docs => forallb plain_date (emails_query docs)
  | Offline _ => false
  end.

(** Two states of the stack that differ at most in the console. *)
Definition same_stack (a b : CardStack.State) : Prop :=
  CardStack.emails a = CardStack.emails b
  /\ CardStack.exitDirection a = CardStack.exitDirection b
  /\ CardStack.sent a = CardStack.sent b.

(** A load that takes the [catch] branch of [fetchEmails]. *)
Definition load_failed (outcome : HomePage.FetchOutcome) : bool :=
  match outcome with
  | HomePage.Rejected _ => true
  | HomePage.Responded false _ => true
  | HomePage.Responded true (inl _) => true
  | HomePage.Responded true (inr _) => false
  end.

Definition is_user_action (ev : Event) : bool :=
  match ev with
  | UserAction _ => true
  | LeavingCardAction _ _ => true
  | FetchSettled _ => false
  end.


Definition important_text : string := "This email is marked as important.".

(** An unread record the ingestion marked important. *)
Definition mail_urgent : DocumentData :=
  [("gmail_id", VStr "m6"); ("user_id", VStr "default");
   ("subject", VStr "Invoice due"); ("sender", VStr "b@example.com");
   ("body", VStr "Please pay."); ("summary", VStr "An invoice is due");
   ("snippet", VStr "Please"); ("received_date", timestamp_2024);
   ("is_read", VBool false); ("discard", VBool false);
   ("is_important", VBool true)].

Definition urgent_page : list EmailSummary :=
  Eval vm_compute in
    match body (GET (Online [mail_urgent]) sample_now) with
    | EmailsJson emails => emails
    | FailureJson _ _ => []
    end.

Definition urgent_cards : list CardStack.EmailSummary :=
  Eval vm_compute in
    match wire_all urgent_page with
    | Some cards => cards
    | None => []
    end.

(** [sample_page] as the page reads it. *)
Definition sample_page_cards : list CardStack.EmailSummary :=
  Eval vm_compute in
    match wire_all sample_page with
    | Some cards => cards
    | None => []
    end.

Definition sample_cards : list CardStack.EmailSummary :=
  [card "m1"; card "m2"; card "m3"].

(** * Properties *)

(** ** Induction on values, through the entries of a map *)

Section ValueInduction.
Variable P : Value -> Prop.
Hypothesis P_null : P VNull.
Hypothesis P_bool : forall b, P (VBool b).
Hypothesis P_num : forall n, P (VNum n).
Hypothesis P_timestamp : forall s n, P (VTimestamp s n).
Hypothesis P_str : forall s, P (VStr s).
Hypothesis P_map :
  forall entries, Forall (fun kv => P (snd kv)) entries -> P (VMap entries).

Fixpoint Value_ind (v : Value) : P v :=
  match v with
  | VNull => P_null
  | VBool b => P_bool b
  | VNum n => P_num n
  | VTimestamp s n => P_timestamp s n
  | VStr s => P_str s
  | VMap entries =>
      P_map entries
        ((fix all (l : list (string * Value)) : Forall (fun kv => P (snd kv)) l :=
            match l with
            | [] => Forall_nil _
            | kv :: rest => Forall_cons kv (Value_ind (snd kv)) (all rest)
            end) entries)
  end.
End ValueInduction.

(** Induction on parsed JSON, through the items of an array. *)
Section JsonInduction.
Variable P : Json -> Prop.
Hypothesis P_null : P JNull.
Hypothesis P_bool : forall b, P (JBool b).
Hypothesis P_num : forall n, P (JNum n).
Hypothesis P_str : forall s, P (JStr s).
Hypothesis P_arr : forall items, Forall P items -> P (JArr items).
Hypothesis P_obj : forall members, P (JObj members).

End JsonInduction.

(** ** The store's order is a total order *)

Lemma string_compare_lt_trans (a b c : string) :
  String.compare a b = Lt -> String.compare b c = Lt -> String.compare a c = Lt.
Proof.
  intros Hab Hbc.
  apply OrderedTypeEx.String_as_OT.cmp_lt.
  apply OrderedTypeEx.String_as_OT.lt_trans with b;
    apply OrderedTypeEx.String_as_OT.cmp_lt; assumption.
Qed.

Lemma Z_compare_lt_trans (a b c : Z) :
  Z.compare a b = Lt -> Z.compare b c = Lt -> Z.compare a c = Lt.
Proof. exact (Z.lt_trans a b c). Qed.

Lemma compare_self_eq (c : comparison) : c = CompOpp c -> c = Eq.
Proof. destruct c; simpl; congruence. Qed.

Lemma value_compare_eq (a b : Value) : value_compare a b = Eq -> a = b.
Proof.
  revert b. induction a as [ | x | x | s1 n1 | x | m1 IH] using Value_ind;
    intros [ | y | y | s2 n2 | y | m2]; simpl; try discriminate; trivial.
  - destruct x, y; simpl; congruence.
  - intros H. apply Z.compare_eq in H. congruence.
  - unfold lex. destruct (Z.compare s1 s2) eqn:Hs; try discriminate.
    intros Hn. apply Z.compare_eq in Hs. apply Z.compare_eq in Hn. congruence.
  - intros H. apply String.compare_eq_iff in H. congruence.
  - intros H. f_equal. revert m2 H.
    induction IH as [ | [k1 v1] r1 Hv _ IHr]; intros [ | [k2 v2] r2]; simpl;
      try discriminate; trivial.
    unfold lex. destruct (String.compare k1 k2) eqn:Hk; try discriminate.
    destruct (value_compare v1 v2) eqn:Hvv; try discriminate.
    intros Hr. apply String.compare_eq_iff in Hk. apply Hv in Hvv.
    apply IHr in Hr. simpl in Hvv. congruence.
Qed.

Lemma value_compare_antisym (a b : Value) :
  value_compare b a = CompOpp (value_compare a b).
Proof.
  revert b. induction a as [ | x | x | s1 n1 | x | m1 IH] using Value_ind;
    intros [ | y | y | s2 n2 | y | m2]; simpl; trivial.
  - destruct x, y; reflexivity.
  - apply Z.compare_antisym.
  - unfold lex. rewrite (Z.compare_antisym s1 s2), (Z.compare_antisym n1 n2).
    destruct (Z.compare s1 s2); reflexivity.
  - apply String.compare_antisym.
  - revert m2.
    induction IH as [ | [k1 v1] r1 Hv _ IHr]; intros [ | [k2 v2] r2]; simpl;
      trivial.
    simpl in Hv. unfold lex.
    rewrite (String.compare_antisym k2 k1), (Hv v2), (IHr r2).
    destruct (String.compare k1 k2); simpl; trivial.
    destruct (value_compare v1 v2); reflexivity.
Qed.

Lemma value_compare_refl (a : Value) : value_compare a a = Eq.
Proof. apply compare_self_eq, value_compare_antisym. Qed.

Lemma value_compare_lt_trans (a b c : Value) :
  value_compare a b = Lt -> value_compare b c = Lt -> value_compare a c = Lt.
Proof.
  revert b c. induction a as [ | x | x | s1 n1 | x | m1 IH] using Value_ind;
    intros [ | y | y | s2 n2 | y | m2] [ | z | z | s3 n3 | z | m3]; simpl;
    try discriminate; trivial.
  - destruct x, y, z; simpl; congruence.
  - apply Z_compare_lt_trans.
  - unfold lex.
    destruct (Z.compare s1 s2) eqn:H12; destruct (Z.compare s2 s3) eqn:H23;
      try discriminate; intros H1 H2.
    + apply Z.compare_eq in H12, H23. subst. rewrite Z.compare_refl.
      exact (Z_compare_lt_trans _ _ _ H1 H2).
    + apply Z.compare_eq in H12. subst. rewrite H23. reflexivity.
    + apply Z.compare_eq in H23. subst. rewrite H12. reflexivity.
    + rewrite (Z_compare_lt_trans _ _ _ H12 H23). reflexivity.
  - apply string_compare_lt_trans.
  - revert m2 m3.
    induction IH as [ | [k1 v1] r1 Hv _ IHr];
      intros [ | [k2 v2] r2] [ | [k3 v3] r3]; simpl; try discriminate; trivial.
    simpl in Hv. unfold lex.
    destruct (String.compare k1 k2) eqn:K12; try discriminate;
      destruct (String.compare k2 k3) eqn:K23; try discriminate.
    + apply String.compare_eq_iff in K12, K23. subst.
      rewrite (compare_self_eq _ (String.compare_antisym k3 k3)).
      destruct (value_compare v1 v2) eqn:V12; try discriminate;
        destruct (value_compare v2 v3) eqn:V23; try discriminate.
      * apply value_compare_eq in V12, V23. subst.
        rewrite value_compare_refl. apply IHr.
      * apply value_compare_eq in V12. subst. rewrite V23. trivial.
      * apply value_compare_eq in V23. subst. rewrite V12. trivial.
      * rewrite (Hv _ _ V12 V23). trivial.
    + apply String.compare_eq_iff in K12. subst. rewrite K23. trivial.
    + apply String.compare_eq_iff in K23. subst. rewrite K12. trivial.
    + rewrite (string_compare_lt_trans _ _ _ K12 K23). trivial.
Qed.

Lemma value_leb_total (a b : Value) : value_leb a b = true \/ value_leb b a = true.
Proof.
  unfold value_leb. rewrite (value_compare_antisym a b).
  destruct (value_compare a b); simpl; auto.
Qed.

Lemma value_leb_trans (a b c : Value) :
  value_leb a b = true -> value_leb b c = true -> value_leb a c = true.
Proof.
  unfold value_leb.
  destruct (value_compare a b) eqn:Hab; try discriminate;
    destruct (value_compare b c) eqn:Hbc; try discriminate; intros _ _.
  - apply value_compare_eq in Hab. subst. rewrite Hbc. reflexivity.
  - apply value_compare_eq in Hab. subst. rewrite Hbc. reflexivity.
  - apply value_compare_eq in Hbc. subst. rewrite Hab. reflexivity.
  - rewrite (value_compare_lt_trans _ _ _ Hab Hbc). reflexivity.
Qed.

(** Among timestamps the store's order is the order of time. *)
Lemma timestamp_leb (s1 n1 s2 n2 : Z) :
  value_leb (VTimestamp s1 n1) (VTimestamp s2 n2) = true
  <-> s1 < s2 \/ (s1 = s2 /\ n1 <= n2).
Proof.
  unfold value_leb. simpl. unfold lex.
  destruct (Z.compare_spec s1 s2) as [Hs | Hs | Hs].
  - destruct (Z.compare_spec n1 n2) as [Hn | Hn | Hn]; split; intros H;
      try lia; trivial; try discriminate H.
  - split; intros _; [lia | reflexivity].
  - split; intros H; [discriminate H | lia].
Qed.

(** ** The query *)

Lemma field_is_spec (name : string) (v : Value) (d : DocumentData) :
  field_is name v d = true <-> field name d = Some v.
Proof.
  unfold field_is, value_eqb. split.
  - destruct (field name d) as [w | ]; try discriminate.
    destruct (value_compare w v) eqn:H; try discriminate.
    apply value_compare_eq in H. congruence.
  - intros ->. rewrite value_compare_refl. reflexivity.
Qed.

Lemma where_eq_In (name : string) (v : Value) (docs : list DocumentData) (d : DocumentData) :
  In d (where_eq name v docs) <-> In d docs /\ field name d = Some v.
Proof.
  unfold where_eq. rewrite filter_In, field_is_spec. reflexivity.
Qed.

Lemma insert_desc_In (x z : Value * DocumentData) (l : list (Value * DocumentData)) :
  In z (insert_desc x l) <-> z = x \/ In z l.
Proof.
  induction l as [ | y rest IH]; simpl.
  - intuition.
  - destruct (value_leb (fst y) (fst x)); simpl; rewrite ?IH; intuition.
Qed.

Lemma sort_desc_In (z : Value * DocumentData) (l : list (Value * DocumentData)) :
  In z (sort_desc l) <-> In z l.
Proof.
  induction l as [ | x rest IH]; simpl.
  - reflexivity.
  - rewrite insert_desc_In, IH. intuition.
Qed.

Lemma insert_desc_length (x : Value * DocumentData) (l : list (Value * DocumentData)) :
  List.length (insert_desc x l) = S (List.length l).
Proof.
  induction l as [ | y rest IH]; simpl; trivial.
  destruct (value_leb (fst y) (fst x)); simpl; congruence.
Qed.

Lemma sort_desc_length (l : list (Value * DocumentData)) :
  List.length (sort_desc l) = List.length l.
Proof.
  induction l as [ | x rest IH]; simpl; trivial.
  rewrite insert_desc_length. congruence.
Qed.

Lemma insert_desc_sorted (x : Value * DocumentData) (l : list (Value * DocumentData)) :
  StronglySorted key_desc l -> StronglySorted key_desc (insert_desc x l).
Proof.
  induction 1 as [ | y rest Hrest IH Hy]; simpl.
  - constructor; constructor.
  - destruct (value_leb (fst y) (fst x)) eqn:Hyx.
    + constructor.
      * constructor; assumption.
      * constructor; trivial.
        eapply Forall_impl; [ | exact Hy].
        intros z Hz. unfold key_desc in *. eapply value_leb_trans; eassumption.
    + constructor; trivial.
      apply Forall_forall. intros z Hz. apply insert_desc_In in Hz.
      destruct Hz as [-> | Hz].
      * unfold key_desc.
        destruct (value_leb_total (fst x) (fst y)) as [H | H]; [exact H | ].
        rewrite Hyx in H. discriminate H.
      * rewrite Forall_forall in Hy. auto.
Qed.

Lemma sort_desc_sorted (l : list (Value * DocumentData)) :
  StronglySorted key_desc (sort_desc l).
Proof.
  induction l as [ | x rest IH]; simpl.
  - constructor.
  - apply insert_desc_sorted, IH.
Qed.

Lemma keyed_docs_In (name : string) (docs : list DocumentData) (k : Value) (d : DocumentData) :
  In (k, d) (keyed_docs name docs) <-> In d docs /\ field name d = Some k.
Proof.
  induction docs as [ | x rest IH]; simpl.
  - intuition.
  - unfold keyed. destruct (field name x) as [kx | ] eqn:Hx; simpl; rewrite IH.
    + split.
      * intros [H | H]; [inversion H; subst; auto | intuition].
      * intros [[-> | H] Hk]; [left; congruence | auto].
    + split; [intuition | ].
      intros [[-> | H] Hk]; [congruence | auto].
Qed.

Lemma keyed_docs_length (name : string) (docs : list DocumentData) :
  List.length (keyed_docs name docs) = List.length (filter (has_field name) docs).
Proof.
  induction docs as [ | x rest IH]; trivial.
  cbn [keyed_docs filter]. unfold keyed. unfold has_field at 1.
  destruct (field name x); cbn [List.length]; rewrite IH; reflexivity.
Qed.

Lemma StronglySorted_map {A B : Type} (R : A -> A -> Prop) (Q : B -> B -> Prop)
      (f : A -> B) (l : list A) :
  (forall x y, In x l -> In y l -> R x y -> Q (f x) (f y)) ->
  StronglySorted R l -> StronglySorted Q (map f l).
Proof.
  intros HRQ Hs. induction Hs as [ | x rest Hrest IH Hx]; simpl.
  - constructor.
  - constructor.
    + apply IH. intros; apply HRQ; simpl; auto.
    + apply Forall_forall. intros y Hy. apply in_map_iff in Hy.
      destruct Hy as [z [<- Hz]]. rewrite Forall_forall in Hx.
      apply HRQ; simpl; auto.
Qed.

Lemma In_firstn {A : Type} (n : nat) (l : list A) (x : A) :
  In x (firstn n l) -> In x l.
Proof.
  revert l. induction n as [ | n IH]; intros [ | y rest]; simpl; intuition.
Qed.

Lemma StronglySorted_firstn {A : Type} (R : A -> A -> Prop) (n : nat) (l : list A) :
  StronglySorted R l -> StronglySorted R (firstn n l).
Proof.
  intros Hs. revert n. induction Hs as [ | x rest Hrest IH Hx]; intros [ | n]; simpl;
    try constructor.
  - apply IH.
  - apply Forall_forall. intros y Hy. rewrite Forall_forall in Hx.
    apply Hx. eapply In_firstn, Hy.
Qed.

Lemma orderBy_desc_In (name : string) (docs : list DocumentData) (d : DocumentData) :
  In d (orderBy_desc name docs) <-> In d docs /\ has_field name d = true.
Proof.
  unfold orderBy_desc. rewrite in_map_iff. split.
  - intros [[k x] [<- H]]. apply sort_desc_In, keyed_docs_In in H. simpl.
    unfold has_field. destruct H as [H1 H2]. rewrite H2. auto.
  - intros [H1 H2]. unfold has_field in H2.
    destruct (field name d) as [k | ] eqn:Hk; try discriminate.
    exists (k, d). split; trivial. apply sort_desc_In, keyed_docs_In. auto.
Qed.

Lemma orderBy_desc_sorted (docs : list DocumentData) :
  StronglySorted date_desc (orderBy_desc "received_date" docs).
Proof.
  unfold orderBy_desc.
  apply StronglySorted_map with (R := key_desc); [ | apply sort_desc_sorted].
  intros [k1 d1] [k2 d2] H1 H2 H.
  apply sort_desc_In, keyed_docs_In in H1. apply sort_desc_In, keyed_docs_In in H2.
  exists k1, k2. simpl. intuition.
Qed.

Lemma emails_query_In (docs : list DocumentData) (d : DocumentData) :
  In d (emails_query docs) ->
  In d docs /\ owned d = true /\ is_unread d = true
  /\ has_field "received_date" d = true.
Proof.
  unfold emails_query, limit. intros H. apply In_firstn in H.
  apply orderBy_desc_In in H. destruct H as [H Hdate].
  apply where_eq_In in H. destruct H as [H Hdiscard].
  apply where_eq_In in H. destruct H as [H Hread].
  apply where_eq_In in H. destruct H as [H Huser].
  unfold owned, is_unread. rewrite andb_true_iff, !field_is_spec. auto.
Qed.

Lemma filter_filter {A : Type} (f g : A -> bool) (l : list A) :
  filter f (filter g l) = filter (fun x => g x && f x) l.
Proof.
  induction l as [ | x rest IH]; simpl; trivial.
  destruct (g x); simpl; [destruct (f x) | ]; congruence.
Qed.

Lemma emails_query_length (docs : list DocumentData) :
  List.length (emails_query docs)
  = Nat.min 20 (List.length (filter query_matches docs)).
Proof.
  unfold emails_query, limit, orderBy_desc, where_eq.
  rewrite length_firstn, length_map, sort_desc_length, keyed_docs_length.
  rewrite !filter_filter. f_equal. f_equal.
  apply filter_ext. intros d. unfold query_matches, owned, is_unread.
  rewrite !andb_assoc. reflexivity.
Qed.

Lemma emails_query_sorted (docs : list DocumentData) :
  StronglySorted date_desc (emails_query docs).
Proof.
  unfold emails_query, limit. apply StronglySorted_firstn, orderBy_desc_sorted.
Qed.

(** ** The gateway's answer *)

Lemma map_exc_Forall2 {A B : Type} (f : A -> Exc B) (l : list A) (out : list B) :
  map_exc f l = inr out -> Forall2 (fun a b => f a = inr b) l out.
Proof.
  revert out. induction l as [ | a rest IH]; simpl; intros out H.
  - inversion H. constructor.
  - unfold bind in H. destruct (f a) as [e | b] eqn:Hb; try discriminate.
    destruct (map_exc f rest) as [e | bs]; try discriminate.
    inversion H. constructor; auto.
Qed.

(** An answer that carries emails is the page of the query, mapped
    document by document. *)
Lemma GET_emails (db : Firestore) (now : Z) (emails : list EmailSummary) :
  body (GET db now) = EmailsJson emails ->
  Forall2 (fun d e => to_summary now d = inr e) (emails_query (stored db)) emails.
Proof.
  unfold GET, GET_try, query_get.
  destruct db as [docs | reason]; unfold bind, ret, throw; cbn [stored].
  - destruct (emails_query docs) as [ | d rest] eqn:Hq.
    + cbn [body]. intros H. inversion H. constructor.
    + destruct (map_exc (to_summary now) (d :: rest)) as [e | out] eqn:Hm;
        cbn [body]; intros H; inversion H; subst.
      apply map_exc_Forall2, Hm.
  - cbn [body]. discriminate.
Qed.

Lemma Forall2_length_eq {A B : Type} (R : A -> B -> Prop) (l : list A) (l' : list B) :
  Forall2 R l l' -> List.length l = List.length l'.
Proof. induction 1; simpl; congruence. Qed.

Lemma to_summary_summary (now : Z) (d : DocumentData) (e : EmailSummary) :
  to_summary now d = inr e ->
  summary e = js_or (field "summary" d) (field "snippet" d).
Proof.
  unfold to_summary, bind. destruct (received_date_iso now d); try discriminate.
  intros H. inversion H. reflexivity.
Qed.

Lemma js_or_text (a b : JsValue) :
  (nonempty_text a = true -> js_or a b = a)
  /\ (truthy a = false -> js_or a b = b)
  /\ (nonempty_text a || negb (truthy a) && nonempty_text b = true ->
      nonempty_text (js_or a b) = true).
Proof.
  unfold js_or.
  destruct a as [[ | x | x | x y | x | x] | ]; simpl.
  - repeat split; intros H; try discriminate H; trivial.
  - destruct x; simpl; repeat split; intros H; try discriminate H; trivial.
  - destruct (x =? 0) eqn:E; simpl; rewrite ?E; simpl; repeat split; intros H; try discriminate H; trivial.
  - repeat split; intros H; try discriminate H; trivial.
  - destruct (String.eqb x "") eqn:E; simpl; rewrite ?E; simpl; repeat split; intros H; try discriminate H; trivial.
  - repeat split; intros H; try discriminate H; trivial.
  - repeat split; intros H; try discriminate H; trivial.
Qed.

(** C1. Visibility invariant of the Query Gateway.  Whenever [GET] answers
    with emails, they are, one for one and in order, the cards of a page of
    stored documents, and every document of that page belongs to the owner
    and is unread (both [is_read] and [discard] stored as [false]).  Hence a
    stored record that is not unread is on no page. *)
Theorem gateway_serves_only_unread
        (db : Firestore) (now : Z) (emails : list EmailSummary) :
  body (GET db now) = EmailsJson emails ->
  exists page,
    Forall2 (fun d e => to_summary now d = inr e) page emails
    /\ (forall d, In d page ->
                  In d (stored db) /\ owned d = true /\ is_unread d = true)
    /\ (forall d, In d (stored db) -> is_unread d = false -> ~ In d page).
Proof.
  intros H. exists (emails_query (stored db)). split; [ | split].
  - apply GET_emails, H.
  - intros d Hd. apply emails_query_In in Hd. tauto.
  - intros d _ Hread Hd. apply emails_query_In in Hd.
    destruct Hd as [_ [_ [Hun _]]]. congruence.
Qed.

Lemma gateway_serves_only_unread_witness :
  exists page,
    Forall2 (fun d e => to_summary sample_now d = inr e) page sample_page
    /\ (forall d, In d page ->
                  In d (stored (Online sample_store))
                  /\ owned d = true /\ is_unread d = true)
    /\ (forall d, In d (stored (Online sample_store)) ->
                  is_unread d = false -> ~ In d page).
Proof.
  apply (gateway_serves_only_unread (Online sample_store) sample_now sample_page).
  vm_compute. reflexivity.
Defined.

(** C3.  Twenty-five unread records of the owner are stored, none with a
    [received_date]: the ordered query leaves every one of them out and the
    page is empty, where twenty were to be served; the callback's fallback
    for a missing date (lines 42-46) is never reached for them.  The same
    number of unread records with dates gives a page of twenty. *)
Theorem undated_records_are_not_paged :
  List.length undated25 = 25%nat
  /\ forallb (fun d => owned d && is_unread d) undated25 = true
  /\ forallb (fun d => negb (has_field "received_date" d)) undated25 = true
  /\ GET (Online undated25) sample_now
     = {| http_status := 200; body := EmailsJson [] |}
  /\ List.length dated25 = 25%nat
  /\ GET (Online dated25) sample_now
     = {| http_status := 200; body := EmailsJson dated25_page |}
  /\ List.length dated25_page = 20%nat.
Proof. vm_compute. repeat split. Qed.

(** C7, as the specification words it, fails: a stored record whose summary
    and snippet are both empty is served with an empty summary. *)
Lemma blank_record_has_empty_summary :
  exists e,
    body (GET (Online [mail_blank]) sample_now) = EmailsJson [e]
    /\ summary e = Some (VStr "")
    /\ nonempty_text (summary e) = false.
Proof. eexists. vm_compute. auto. Qed.

Lemma to_summary_id (now : Z) (d : DocumentData) (e : EmailSummary) :
  to_summary now d = inr e -> id e = field "gmail_id" d.
Proof.
  unfold to_summary, bind. destruct (received_date_iso now d); try discriminate.
  intros H. inversion H. reflexivity.
Qed.

(** C7, amended.  The emails of an answer are, one for one and in order, the
    cards of the documents of the query's page, each with the [gmail_id] of
    its own document as [id]; and the summary of each is its own document's
    stored summary when that is a non-empty string, and its own document's
    stored snippet when the stored summary is empty or absent; so it is a
    non-empty string whenever the stored summary is one, or is empty or
    absent while the snippet is one. *)
Theorem summary_falls_back_to_snippet
        (db : Firestore) (now : Z) (emails : list EmailSummary) :
  body (GET db now) = EmailsJson emails ->
  Forall2
    (fun d e =>
       to_summary now d = inr e
       /\ id e = field "gmail_id" d
       /\ (nonempty_text (field "summary" d) = true ->
           summary e = field "summary" d)
       /\ (truthy (field "summary" d) = false ->
           summary e = field "snippet" d)
       /\ (nonempty_text (field "summary" d)
           || negb (truthy (field "summary" d))
              && nonempty_text (field "snippet" d) = true ->
           nonempty_text (summary e) = true))
    (emails_query (stored db)) emails.
Proof.
  intros H. apply GET_emails in H. eapply Forall2_impl; [ | exact H].
  intros d e Hde. split; [exact Hde | ]. split; [apply (to_summary_id now d e Hde) | ].
  apply to_summary_summary in Hde. rewrite Hde. apply js_or_text.
Qed.

Lemma summary_falls_back_to_snippet_witness :
  Forall2
    (fun d e =>
       to_summary sample_now d = inr e
       /\ id e = field "gmail_id" d
       /\ (nonempty_text (field "summary" d) = true ->
           summary e = field "summary" d)
       /\ (truthy (field "summary" d) = false ->
           summary e = field "snippet" d)
       /\ (nonempty_text (field "summary" d)
           || negb (truthy (field "summary" d))
              && nonempty_text (field "snippet" d) = true ->
           nonempty_text (summary e) = true))
    (emails_query (stored (Online sample_store))) sample_page.
Proof.
  apply (summary_falls_back_to_snippet (Online sample_store) sample_now sample_page).
  vm_compute. reflexivity.
Defined.

Lemma to_summary_plain (now : Z) (d : DocumentData) :
  plain_date d = true ->
  exists e,
    to_summary now d = inr e
    /\ (member_truthy (optional_toDate (field "received_date" d)) = false ->
        receivedDate e = iso_string now).
Proof.
  unfold plain_date, to_summary, received_date_iso, bind.
  destruct (field "received_date" d) as [[ | b | n | s n | s | m] | ];
    cbn [optional_toDate member_truthy call_toDate negb];
    try (intros _; eexists; split; reflexivity).
  - destruct (Timestamp_toDate s n); try discriminate.
    intros _. eexists. split; [reflexivity | discriminate].
  - destruct (field "toDate" m) as [v | ]; cbn [member_truthy].
    + destruct (truthy (Some v)); try discriminate.
      intros _. eexists. split; reflexivity.
    + intros _. eexists. split; reflexivity.
Qed.

Lemma map_exc_total {A B : Type} (f : A -> Exc B) (Q : A -> B -> Prop) (l : list A) :
  (forall a, In a l -> exists b, f a = inr b /\ Q a b) ->
  exists out, map_exc f l = inr out /\ Forall2 Q l out.
Proof.
  induction l as [ | a rest IH]; intros H.
  - exists []. split; [reflexivity | constructor].
  - destruct (H a (or_introl eq_refl)) as [b [Hb HQ]].
    destruct IH as [out [Hout HF]]; [intros; apply H; simpl; auto | ].
    exists (b :: out). simpl. unfold bind. rewrite Hb, Hout.
    split; [reflexivity | constructor; trivial].
Qed.

(** What the gateway does tolerate: a page whose dates are all plain is
    served whole, and each record whose [received_date] is no Timestamp gets
    the clock reading. *)
Lemma page_with_plain_dates_is_served (docs : list DocumentData) (now : Z) :
  forallb plain_date (emails_query docs) = true ->
  exists emails,
    GET (Online docs) now = {| http_status := 200; body := EmailsJson emails |}
    /\ Forall2
         (fun d e =>
            member_truthy (optional_toDate (field "received_date" d)) = false ->
            receivedDate e = iso_string now)
         (emails_query docs) emails.
Proof.
  intros Hplain. rewrite forallb_forall in Hplain.
  destruct (map_exc_total (to_summary now)
              (fun d e =>
                 member_truthy (optional_toDate (field "received_date" d)) = false ->
                 receivedDate e = iso_string now)
              (emails_query docs)) as [emails [Hm HF]].
  { intros d Hd. apply to_summary_plain, Hplain, Hd. }
  exists emails. split; trivial.
  unfold GET, GET_try, query_get, bind, ret.
  destruct (emails_query docs) as [ | d rest] eqn:Hq.
  - inversion Hm. reflexivity.
  - rewrite Hm. reflexivity.
Qed.

(** C8.  One record whose [received_date] is a map with a truthy [toDate]
    entry passes the test of line 44, the call of line 45 throws, and the
    whole answer is the 500 failure, although the two other records of the
    page are sound and are served when that record is not there. *)
Theorem odd_received_date_fails_the_page :
  member_truthy (optional_toDate (field "received_date" mail_odd_date)) = true
  /\ GET (Online [mail_m1; mail_odd_date; mail_m2]) sample_now
     = {| http_status := 500;
          body := FailureJson "Failed to fetch emails from Firestore."
                              "data.received_date.toDate is not a function" |}
  /\ GET (Online [mail_m1; mail_m2]) sample_now
     = {| http_status := 200; body := EmailsJson sample_page |}.
Proof. vm_compute. auto. Qed.

(** ** The disposition handler *)





(** The handler never touches the store, whatever it is sent. *)
Lemma POST_keeps_store (request_json : Exc Json) (sv : Server) :
  firestore (snd (POST request_json sv)) = firestore sv.
Proof.
  unfold POST. destruct (POST_try request_json sv) as [e | [response sv']] eqn:H;
    trivial.
  unfold POST_try, bind in H.
  destruct request_json as [e | parsed]; try discriminate.
  destruct (destructure parsed) as [e | [emailId action]]; try discriminate.
  destruct (interpolate action); try discriminate.
  destruct (interpolate emailId); try discriminate.
  inversion H. reflexivity.
Qed.




(** What the client's request gets. *)
Lemma POST_action_request (emailId : string) (a : Action) (sv : Server) :
  POST (action_request emailId a) sv
  = (action_disabled,
     write_console
       (console_log ("Received action '" ++ action_name a ++ "' for email '"
                       ++ emailId ++ "'. Action is currently disabled."))
       sv).
Proof. destruct a; reflexivity. Qed.

(** C2, as the specification words it, fails: [discard] is sent for the
    stored unread record [m1]; the handler reports success, the store is as
    before, and under every reading of documents as dispositions that agrees
    with the gateway on "unread" the record is still unread, not discarded. *)
Lemma discard_leaves_record_unread :
  success (body (fst (POST (action_request "m1" discard) sample_server))) = true
  /\ firestore (snd (POST (action_request "m1" discard) sample_server))
     = Online [mail_m1; mail_read; mail_m2]
  /\ field "gmail_id" mail_m1 = Some (VStr "m1")
  /\ is_unread mail_m1 = true
  /\ forall disposition_of,
       reads_unread disposition_of -> disposition_of mail_m1 <> target discard.
Proof.
  repeat split; try reflexivity.
  intros disposition_of Hread. rewrite (Hread mail_m1 eq_refl). discriminate.
Qed.

(** C2, amended.  Given a [provider_id] and one of the three actions, the
    handler answers 200 with [success = true] and "Action disabled.", writes
    one line to the console, after the lines already there, and leaves the
    store, hence every stored disposition, as it was. *)
Theorem handler_reports_success_and_stores_nothing
        (emailId : string) (a : Action) (sv : Server) :
  fst (POST (action_request emailId a) sv) = action_disabled
  /\ firestore (snd (POST (action_request emailId a) sv)) = firestore sv
  /\ (forall disposition_of : DocumentData -> Disposition,
        map disposition_of (stored (firestore (snd (POST (action_request emailId a) sv))))
        = map disposition_of (stored (firestore sv)))
  /\ console (snd (POST (action_request emailId a) sv))
     = (console sv
          ++ [console_log ("Received action '" ++ action_name a ++ "' for email '"
                             ++ emailId ++ "'. Action is currently disabled.")])%list.
Proof.
  rewrite POST_action_request. simpl. auto.
Qed.

(** C6.  The same action sent twice for the same [provider_id]: both calls
    report success, and the store after the second call is the store after
    the first, so every stored disposition is what it was after the first. *)
Theorem repeated_action_is_idempotent
        (emailId : string) (a : Action) (sv : Server) :
  let first := POST (action_request emailId a) sv in
  let second := POST (action_request emailId a) (snd first) in
  success (body (fst first)) = true
  /\ success (body (fst second)) = true
  /\ firestore (snd second) = firestore (snd first)
  /\ forall disposition_of : DocumentData -> Disposition,
       map disposition_of (stored (firestore (snd second)))
       = map disposition_of (stored (firestore (snd first))).
Proof.
  intros first second. subst first second.
  rewrite !POST_action_request. simpl. auto.
Qed.

(** ** The review state machine *)

Lemma top_last (l : list CardStack.EmailSummary) (e : CardStack.EmailSummary) :
  CardStack.top (l ++ [e])%list = Some e.
Proof.
  unfold CardStack.top. rewrite length_app. simpl.
  replace (List.length l + 1 - 1)%nat with (List.length l) by lia.
  rewrite nth_error_app2 by lia. rewrite Nat.sub_diag. reflexivity.
Qed.

Lemma visible_last (l : list CardStack.EmailSummary) (e : CardStack.EmailSummary)
      (st : CardStack.State) :
  CardStack.emails st = (l ++ [e])%list -> CardStack.visible st = Some e.
Proof.
  unfold CardStack.visible. intros ->. rewrite top_last, length_app. simpl.
  destruct (Nat.ltb_spec 0 (List.length l + 1)); [reflexivity | lia].
Qed.

Lemma visible_inv (st : CardStack.State) (e : CardStack.EmailSummary) :
  CardStack.visible st = Some e -> exists l, CardStack.emails st = (l ++ [e])%list.
Proof.
  intros H. destruct (CardStack.emails st) as [ | x rest] eqn:Hl using rev_ind.
  - unfold CardStack.visible in H. rewrite Hl in H. discriminate.
  - rewrite (visible_last rest x st Hl) in H. inversion H. subst. eauto.
Qed.

Lemma filter_drops_id (emailId : string) (l : list CardStack.EmailSummary)
      (e : CardStack.EmailSummary) :
  In e (filter (fun email => negb (String.eqb (CardStack.id email) emailId)) l) ->
  In e l /\ CardStack.id e <> emailId.
Proof.
  rewrite filter_In. intros [Hin Hne]. split; trivial.
  intros Heq. rewrite Heq, String.eqb_refl in Hne. discriminate.
Qed.

Lemma settle_keeps_emails (outcome : CardStack.FetchOutcome) (st : CardStack.State) :
  CardStack.emails (CardStack.handleAction_settle outcome st) = CardStack.emails st.
Proof. destruct outcome as [[ | ] text | error]; reflexivity. Qed.

Lemma settle_keeps_visible (outcome : CardStack.FetchOutcome) (st : CardStack.State) :
  CardStack.visible (CardStack.handleAction_settle outcome st) = CardStack.visible st.
Proof. unfold CardStack.visible. rewrite settle_keeps_emails. reflexivity. Qed.

(** The list of cards never grows: no event puts a card back. *)
Lemma run_only_removes (evs : list Event) (st : CardStack.State)
      (e : CardStack.EmailSummary) :
  In e (CardStack.emails (run evs st)) -> In e (CardStack.emails st).
Proof.
  revert st. induction evs as [ | ev rest IH]; simpl; trivial.
  intros st H. apply IH in H.
  destruct ev as [action | emailId action | outcome]; simpl in H.
  - unfold CardStack.onAction in H. destruct (CardStack.visible st); trivial.
    simpl in H. apply filter_drops_id in H. tauto.
  - destruct (is_leaving emailId st); trivial.
    simpl in H. apply filter_drops_id in H. tauto.
  - rewrite settle_keeps_emails in H. exact H.
Qed.

Lemma filter_keeps_all {A : Type} (p : A -> bool) (l : list A) :
  (forall x, In x l -> p x = true) -> filter p l = l.
Proof.
  induction l as [ | x rest IH]; simpl; trivial.
  intros H. rewrite (H x (or_introl eq_refl)), IH; trivial.
  intros; apply H; auto.
Qed.

(** With distinct ids, only the top card has the id of the top card. *)
Lemma unique_top_leaves_alone (st : CardStack.State) (l : list CardStack.EmailSummary)
      (e : CardStack.EmailSummary) (action : Action) :
  CardStack.emails st = (l ++ [e])%list ->
  NoDup (map CardStack.id (CardStack.emails st)) ->
  CardStack.emails (CardStack.onAction action st) = l.
Proof.
  intros Hl Hnd. unfold CardStack.onAction.
  rewrite (visible_last l e st Hl). simpl.
  rewrite Hl in *. rewrite map_app in Hnd. simpl in Hnd.
  apply NoDup_remove_2 in Hnd. rewrite app_nil_r in Hnd.
  rewrite filter_app. simpl. rewrite String.eqb_refl. simpl.
  rewrite app_nil_r. apply filter_keeps_all. intros x Hx.
  destruct (String.eqb_spec (CardStack.id x) (CardStack.id e)) as [Heq | Hne]; trivial.
  exfalso. apply Hnd. rewrite <- Heq. apply in_map, Hx.
Qed.

(** C4.  An action on the visible card takes it off the stack in the
    handler itself, in the step that sends the request, so before any
    answer.  What leaves is that card (with any card sharing its id): the
    list after the step is the list before it without the cards of that id,
    so every card with another id stays, in its place, and with distinct ids
    exactly the visible card is removed.  However the request settles
    afterwards (success, failure or no answer at all), the list and the
    visible card stay as that step left them. *)
Theorem action_removes_card_at_once
        (st : CardStack.State) (e : CardStack.EmailSummary) (action : Action) :
  CardStack.visible st = Some e ->
  let st1 := CardStack.onAction action st in
  ~ In e (CardStack.emails st1)
  /\ CardStack.visible st1 <> Some e
  /\ CardStack.sent st1 = (CardStack.sent st ++ [(CardStack.id e, action)])%list
  /\ (forall outcome,
        CardStack.emails (CardStack.handleAction_settle outcome st1)
        = CardStack.emails st1
        /\ CardStack.visible (CardStack.handleAction_settle outcome st1)
           = CardStack.visible st1)
  /\ CardStack.emails st1
     = filter (fun x => negb (String.eqb (CardStack.id x) (CardStack.id e)))
              (CardStack.emails st)
  /\ (forall x, In x (CardStack.emails st) ->
                CardStack.id x <> CardStack.id e -> In x (CardStack.emails st1))
  /\ exists l,
       CardStack.emails st = (l ++ [e])%list
       /\ (NoDup (map CardStack.id (CardStack.emails st)) ->
           CardStack.emails st1 = l).
Proof.
  intros Hvis st1. subst st1.
  destruct (visible_inv st e Hvis) as [l Hl].
  assert (Hstep : CardStack.onAction action st
                  = CardStack.handleAction_begin (CardStack.id e) action st)
    by (unfold CardStack.onAction; rewrite Hvis; reflexivity).
  assert (Hout : ~ In e (CardStack.emails (CardStack.onAction action st))).
  { rewrite Hstep. simpl. intros H. apply filter_drops_id in H.
    destruct H as [_ H]. apply H. reflexivity. }
  split; [exact Hout | ]. split.
  { intros H. apply visible_inv in H. destruct H as [l' Hl']. apply Hout.
    rewrite Hl'. apply in_or_app. simpl. auto. }
  split; [rewrite Hstep; reflexivity | ]. split.
  { intros outcome. split; [apply settle_keeps_emails | apply settle_keeps_visible]. }
  split; [rewrite Hstep; reflexivity | ]. split.
  { intros x Hx Hne. rewrite Hstep. simpl. apply filter_In. split; trivial.
    apply negb_true_iff. apply String.eqb_neq. exact Hne. }
  exists l. split; trivial. intros Hnd.
  apply (unique_top_leaves_alone st l e action Hl Hnd).
Qed.

Lemma action_removes_card_at_once_witness :
  let st1 := CardStack.onAction discard two_cards in
  ~ In (card "m2") (CardStack.emails st1)
  /\ CardStack.visible st1 <> Some (card "m2")
  /\ CardStack.sent st1
     = (CardStack.sent two_cards ++ [(CardStack.id (card "m2"), discard)])%list
  /\ (forall outcome,
        CardStack.emails (CardStack.handleAction_settle outcome st1)
        = CardStack.emails st1
        /\ CardStack.visible (CardStack.handleAction_settle outcome st1)
           = CardStack.visible st1)
  /\ CardStack.emails st1
     = filter (fun x => negb (String.eqb (CardStack.id x) (CardStack.id (card "m2"))))
              (CardStack.emails two_cards)
  /\ (forall x, In x (CardStack.emails two_cards) ->
                CardStack.id x <> CardStack.id (card "m2") ->
                In x (CardStack.emails st1))
  /\ exists l,
       CardStack.emails two_cards = (l ++ [card "m2"])%list
       /\ (NoDup (map CardStack.id (CardStack.emails two_cards)) ->
           CardStack.emails st1 = l).
Proof.
  apply (action_removes_card_at_once two_cards (card "m2") discard).
  reflexivity.
Defined.

(** C5.  The card [m2] is on top, the user discards it and the server
    answers with a failure: the failure is written to the console and the
    stack stays without [m2], with [m1] on top.  No later event brings a
    removed card back either. *)
Theorem failed_action_is_only_logged :
  let st := run [UserAction discard;
                 FetchSettled (CardStack.Responded false "Internal Server Error")]
                two_cards in
  CardStack.visible two_cards = Some (card "m2")
  /\ CardStack.emails st = [card "m1"]
  /\ CardStack.visible st = Some (card "m1")
  /\ CardStack.browser_console st
     = ["Failed to save action to backend: Internal Server Error"]
  /\ forall evs, ~ In (card "m2") (CardStack.emails (run evs st)).
Proof.
  simpl. repeat split.
  intros evs H. apply run_only_removes in H. simpl in H.
  destruct H as [H | []]. discriminate H.
Qed.

(** C9.  In every state the component shows the last element of the list
    and nothing else: with an empty list no card (and the closing notice),
    with a non-empty list exactly the card of its last element. *)
Theorem one_visible_card_the_last (st : CardStack.State) :
  (CardStack.emails st = []
   /\ CardStack.visible st = None
   /\ CardStack.all_reviewed st = true)
  \/ (exists l e,
         CardStack.emails st = (l ++ [e])%list
         /\ CardStack.visible st = Some e
         /\ CardStack.all_reviewed st = false).
Proof.
  destruct (CardStack.emails st) as [ | x rest] eqn:Hl using rev_ind.
  - left. unfold CardStack.visible, CardStack.all_reviewed. rewrite Hl. auto.
  - right. exists rest, x. repeat split.
    + apply (visible_last rest x st Hl).
    + unfold CardStack.all_reviewed. rewrite Hl, length_app. simpl.
      apply Nat.eqb_neq. lia.
Qed.

(** * Further properties of the routes and the components *)

(** ** The query as a whole *)

Lemma insert_desc_perm (x : Value * DocumentData) (l : list (Value * DocumentData)) :
  Permutation (insert_desc x l) (x :: l).
Proof.
  induction l as [ | y rest IH]; simpl.
  - apply Permutation_refl.
  - destruct (value_leb (fst y) (fst x)).
    + apply Permutation_refl.
    + apply perm_trans with (y :: x :: rest).
      * apply perm_skip, IH.
      * apply perm_swap.
Qed.

Lemma sort_desc_perm (l : list (Value * DocumentData)) :
  Permutation (sort_desc l) l.
Proof.
  induction l as [ | x rest IH]; simpl.
  - apply perm_nil.
  - apply perm_trans with (x :: sort_desc rest).
    + apply insert_desc_perm.
    + apply perm_skip, IH.
Qed.

Lemma keyed_docs_snd (name : string) (docs : list DocumentData) :
  map snd (keyed_docs name docs) = filter (has_field name) docs.
Proof.
  induction docs as [ | d rest IH]; trivial.
  cbn [keyed_docs filter]. unfold keyed. unfold has_field at 1.
  destruct (field name d); cbn [map snd]; rewrite IH; reflexivity.
Qed.

Lemma orderBy_desc_perm (name : string) (docs : list DocumentData) :
  Permutation (orderBy_desc name docs) (filter (has_field name) docs).
Proof.
  unfold orderBy_desc. rewrite <- keyed_docs_snd.
  apply Permutation_map, sort_desc_perm.
Qed.

Lemma where_chain (docs : list DocumentData) :
  filter (has_field "received_date")
    (where_eq "discard" (VBool false)
       (where_eq "is_read" (VBool false) (where_eq "user_id" userId docs)))
  = filter query_matches docs.
Proof.
  unfold where_eq. rewrite !filter_filter. apply filter_ext. intros d.
  unfold query_matches, owned, is_unread. rewrite !andb_assoc. reflexivity.
Qed.

Lemma keyed_docs_filter (name : string) (docs : list DocumentData) :
  keyed_docs name (filter (has_field name) docs) = keyed_docs name docs.
Proof.
  induction docs as [ | d rest IH]; trivial.
  cbn [filter keyed_docs]. unfold has_field at 1. unfold keyed.
  destruct (field name d) as [k | ] eqn:Hk; trivial.
  cbn [keyed_docs]. unfold keyed. rewrite Hk, IH. reflexivity.
Qed.

(** The page is computed from the matching documents alone. *)
Lemma emails_query_matches (docs : list DocumentData) :
  emails_query docs
  = firstn 20 (map snd (sort_desc (keyed_docs "received_date"
                                     (filter query_matches docs)))).
Proof.
  unfold emails_query, limit, orderBy_desc.
  rewrite <- where_chain, keyed_docs_filter. reflexivity.
Qed.

Lemma GET_of_page (docs1 docs2 : list DocumentData) (now : Z) :
  emails_query docs1 = emails_query docs2 ->
  GET (Online docs1) now = GET (Online docs2) now.
Proof.
  intros H. unfold GET, GET_try, query_get, bind, ret. rewrite H. reflexivity.
Qed.

Lemma StronglySorted_app_inv {A : Type} (R : A -> A -> Prop) (l1 l2 : list A) :
  StronglySorted R (l1 ++ l2)%list ->
  forall x y, In x l1 -> In y l2 -> R x y.
Proof.
  induction l1 as [ | a rest IH]; simpl; intros Hs x y Hx Hy; [tauto | ].
  inversion Hs as [ | ? ? Hrest Hall]; subst.
  destruct Hx as [-> | Hx].
  - rewrite Forall_forall in Hall. apply Hall, in_or_app. auto.
  - apply IH; assumption.
Qed.

Lemma date_desc_refl (d : DocumentData) :
  has_field "received_date" d = true -> date_desc d d.
Proof.
  unfold has_field, date_desc.
  destruct (field "received_date" d) as [k | ]; try discriminate.
  intros _. exists k, k. repeat split. unfold value_leb.
  rewrite value_compare_refl. reflexivity.
Qed.

(** X1.  The query of lines 26-32 as a whole: its page is the first 20 of a
    list that holds exactly the matching documents of the collection (the
    owner's, unread, with a [received_date]), each as often as it is stored,
    in descending order of [received_date]. *)
Theorem query_is_first_20_of_sorted_matches (docs : list DocumentData) :
  exists ranked,
    Permutation ranked (filter query_matches docs)
    /\ StronglySorted date_desc ranked
    /\ emails_query docs = firstn 20 ranked.
Proof.
  exists (orderBy_desc "received_date"
            (where_eq "discard" (VBool false)
               (where_eq "is_read" (VBool false) (where_eq "user_id" userId docs)))).
  split; [ | split].
  - rewrite <- where_chain. apply orderBy_desc_perm.
  - apply orderBy_desc_sorted.
  - reflexivity.
Qed.

(** X2.  Documents the query does not match (other owners', read or
    discarded ones, ones without a date) have no influence on the answer:
    two collections with the same matching documents in the same order get
    the same response. *)
Theorem unmatched_documents_do_not_matter
        (docs1 docs2 : list DocumentData) (now : Z) :
  filter query_matches docs1 = filter query_matches docs2 ->
  GET (Online docs1) now = GET (Online docs2) now.
Proof.
  intros H. apply GET_of_page. rewrite !emails_query_matches, H. reflexivity.
Qed.

Lemma unmatched_documents_do_not_matter_witness :
  GET (Online sample_store) sample_now = GET (Online [mail_m1; mail_m2]) sample_now.
Proof.
  apply (unmatched_documents_do_not_matter sample_store [mail_m1; mail_m2] sample_now).
  reflexivity.
Defined.

(** X3.  Nothing newer is left behind: a matching document of the
    collection is on the page, or the page is full (20 documents) and every
    document on it has a [received_date] at least as late. *)
Theorem page_holds_the_newest (docs : list DocumentData) (d : DocumentData) :
  In d docs -> query_matches d = true ->
  In d (emails_query docs)
  \/ (List.length (emails_query docs) = 20%nat
      /\ forall d', In d' (emails_query docs) -> date_desc d' d).
Proof.
  intros Hin Hm.
  set (ranked := orderBy_desc "received_date"
                   (where_eq "discard" (VBool false)
                      (where_eq "is_read" (VBool false)
                         (where_eq "user_id" userId docs)))).
  assert (Hd : In d ranked).
  { apply (Permutation_in d (Permutation_sym (orderBy_desc_perm _ _))).
    rewrite where_chain. apply filter_In. auto. }
  assert (Hs : StronglySorted date_desc ranked) by apply orderBy_desc_sorted.
  change (emails_query docs) with (firstn 20 ranked).
  rewrite <- (firstn_skipn 20 ranked) in Hd, Hs.
  apply in_app_or in Hd. destruct Hd as [Hd | Hd]; [left; exact Hd | right].
  split.
  - rewrite length_firstn. apply Nat.min_l.
    destruct (Nat.le_gt_cases 20 (List.length ranked)) as [Hle | Hgt]; trivial.
    rewrite skipn_all2 in Hd by lia. destruct Hd.
  - intros d' Hd'. exact (StronglySorted_app_inv _ _ _ Hs d' d Hd' Hd).
Qed.

Lemma page_holds_the_newest_witness :
  In mail_m1 (emails_query sample_store)
  \/ (List.length (emails_query sample_store) = 20%nat
      /\ forall d', In d' (emails_query sample_store) -> date_desc d' mail_m1).
Proof.
  apply (page_holds_the_newest sample_store mail_m1).
  - simpl. auto.
  - reflexivity.
Defined.

(** ** When the gateway fails *)

Lemma to_summary_not_plain (now : Z) (d : DocumentData) :
  plain_date d = false -> exists e, to_summary now d = inl e.
Proof.
  unfold plain_date, to_summary, received_date_iso, bind.
  destruct (field "received_date" d) as [[ | b | n | s n | s | m] | ];
    cbn [optional_toDate member_truthy call_toDate negb]; try discriminate.
  - destruct (Timestamp_toDate s n); try discriminate.
    intros _. eexists. reflexivity.
  - destruct (field "toDate" m) as [v | ]; cbn [member_truthy]; try discriminate.
    destruct (truthy (Some v)); try discriminate.
    intros _. eexists. reflexivity.
Qed.

Lemma map_exc_fails {A B : Type} (f : A -> Exc B) (l : list A) (a : A) :
  In a l -> (exists e, f a = inl e) -> exists e, map_exc f l = inl e.
Proof.
  induction l as [ | x rest IH]; simpl; [tauto | ].
  intros [-> | Hin] Hfail; unfold bind.
  - destruct Hfail as [e ->]. eauto.
  - destruct (f x) as [e | b]; [eauto | ].
    destruct (IH Hin Hfail) as [e ->]. eauto.
Qed.

Lemma GET_not_servable (db : Firestore) (now : Z) :
  servable db = false ->
  exists error,
    GET db now
    = {| http_status := 500;
         body := FailureJson "Failed to fetch emails from Firestore." error |}.
Proof.
  unfold GET, GET_try, query_get, bind, ret, throw.
  destruct db as [docs | reason]; simpl; [ | eauto].
  intros Hbad.
  assert (Hone : exists d, In d (emails_query docs) /\ plain_date d = false).
  { clear now. induction (emails_query docs) as [ | d rest IH]; simpl in Hbad;
      try discriminate.
    destruct (plain_date d) eqn:Hd.
    - destruct (IH Hbad) as [x [Hx Hp]]. exists x. simpl. auto.
    - exists d. simpl. auto. }
  destruct Hone as [d [Hd Hp]].
  destruct (map_exc_fails (to_summary now) _ d Hd (to_summary_not_plain now d Hp))
    as [e He].
  destruct (emails_query docs) as [ | x rest]; [destruct Hd | ].
  rewrite He. eauto.
Qed.

(** X4.  The two answers of [GET] and when each is given: 200 with one
    email per document of the page when the store is reachable and every
    [received_date] on the page is a Timestamp in the range of [Date] or a
    value without a truthy [toDate]; in every other case 500 with the fixed
    message and the text of the error, and no emails at all. *)
Theorem gateway_answers_all_or_nothing (db : Firestore) (now : Z) :
  (servable db = true
   /\ exists emails,
        GET db now = {| http_status := 200; body := EmailsJson emails |}
        /\ List.length emails = List.length (emails_query (stored db)))
  \/ (servable db = false
      /\ exists error,
           GET db now
           = {| http_status := 500;
                body := FailureJson "Failed to fetch emails from Firestore." error |}).
Proof.
  destruct (servable db) eqn:Hs.
  - left. split; trivial. destruct db as [docs | reason]; [ | discriminate].
    destruct (page_with_plain_dates_is_served docs now Hs) as [emails [HG HF]].
    exists emails. split; trivial. symmetry. exact (Forall2_length_eq _ _ _ HF).
  - right. split; trivial. apply GET_not_servable, Hs.
Qed.

Lemma map_exc_ext {A B : Type} (f g : A -> Exc B) (l : list A) :
  (forall a, In a l -> f a = g a) -> map_exc f l = map_exc g l.
Proof.
  induction l as [ | a rest IH]; simpl; trivial.
  intros H. rewrite (H a (or_introl eq_refl)), IH; trivial.
  intros; apply H; auto.
Qed.

(** X5.  The clock shows only through records without a Timestamp: when
    every document on the page has a Timestamp as [received_date], the
    answer is the same at every time of asking. *)
Theorem answer_is_independent_of_the_clock
        (docs : list DocumentData) (now1 now2 : Z) :
  (forall d, In d (emails_query docs) ->
             exists s n, field "received_date" d = Some (VTimestamp s n)) ->
  GET (Online docs) now1 = GET (Online docs) now2.
Proof.
  intros Hts. unfold GET, GET_try, query_get, bind, ret.
  destruct (emails_query docs) as [ | d rest] eqn:Hq; trivial.
  rewrite (map_exc_ext (to_summary now1) (to_summary now2)); trivial.
  intros x Hx. destruct (Hts x Hx) as [s [n Hd]].
  unfold to_summary, received_date_iso. rewrite Hd. reflexivity.
Qed.

Lemma answer_is_independent_of_the_clock_witness :
  GET (Online sample_store) 0 = GET (Online sample_store) sample_now.
Proof.
  apply (answer_is_independent_of_the_clock sample_store 0 sample_now).
  intros d Hd. vm_compute in Hd.
  destruct Hd as [<- | [<- | []]]; eexists; eexists; reflexivity.
Defined.

(** ** Actions and the next load *)

Lemma serve_actions_keeps_store (requests : list (string * Action)) (sv : Server) :
  firestore (serve_actions requests sv) = firestore sv.
Proof.
  unfold serve_actions. revert sv.
  induction requests as [ | r rest IH]; intros sv; cbn [fold_left]; trivial.
  rewrite IH. apply POST_keeps_store.
Qed.

Lemma serve_actions_console (requests : list (string * Action)) (sv : Server) :
  console (serve_actions requests sv)
  = (console sv
       ++ map (fun r => console_log
                          ("Received action '" ++ action_name (snd r)
                             ++ "' for email '" ++ fst r
                             ++ "'. Action is currently disabled."))
              requests)%list.
Proof.
  unfold serve_actions. revert sv.
  induction requests as [ | r rest IH]; intros sv; cbn [fold_left map].
  - rewrite app_nil_r. reflexivity.
  - rewrite IH, POST_action_request. cbn [snd write_console console].
    rewrite <- app_assoc. reflexivity.
Qed.

(** X6.  However many review actions the server has handled, for whatever
    ids, the next load is answered exactly as if none had been sent: a card
    kept, discarded or flagged is served again.  All the actions leave is
    one console line each, in the order they came. *)
Theorem reload_after_actions_serves_the_same
        (requests : list (string * Action)) (sv : Server) (now : Z) :
  GET (firestore (serve_actions requests sv)) now = GET (firestore sv) now
  /\ console (serve_actions requests sv)
     = (console sv
          ++ map (fun r => console_log
                             ("Received action '" ++ action_name (snd r)
                                ++ "' for email '" ++ fst r
                                ++ "'. Action is currently disabled."))
                 requests)%list.
Proof.
  split.
  - rewrite serve_actions_keeps_store. reflexivity.
  - apply serve_actions_console.
Qed.

(** X7.  Every request leaves exactly one line on the server console,
    after the lines already there: a log line when the answer is the 200
    one, an error line with the thrown error when it is the 500 one. *)
Theorem handler_writes_one_console_line (request_json : Exc Json) (sv : Server) :
  exists line,
    console (snd (POST request_json sv)) = (console sv ++ [line])%list
    /\ match line with
       | console_log _ => fst (POST request_json sv) = action_disabled
       | console_error text _ =>
           text = "Error processing email action:"
           /\ fst (POST request_json sv) = internal_server_error
       end.
Proof.
  unfold POST. destruct (POST_try request_json sv) as [e | [response sv']] eqn:H.
  - eexists. split; [reflexivity | ]. simpl. auto.
  - unfold POST_try, bind in H.
    destruct request_json as [e | parsed]; try discriminate.
    destruct (destructure parsed) as [e | [emailId action]]; try discriminate.
    destruct (interpolate action); try discriminate.
    destruct (interpolate emailId); try discriminate.
    inversion H. subst. eexists. split; [reflexivity | ]. reflexivity.
Qed.

(** ** The red box of the card *)

Lemma Forall2_In_r {A B : Type} (R : A -> B -> Prop) (l : list A) (l' : list B) (b : B) :
  Forall2 R l l' -> In b l' -> exists a, In a l /\ R a b.
Proof.
  induction 1 as [ | x y l l' Hxy _ IH]; simpl; [tauto | ].
  intros [<- | Hb].
  - exists x. auto.
  - destruct (IH Hb) as [a [Ha HR]]. exists a. auto.
Qed.

Lemma to_summary_importance (now : Z) (d : DocumentData) (e : EmailSummary) :
  to_summary now d = inr e ->
  status e = "none"
  /\ ((truthy (actionRequired e) = true
       /\ actionRequired e = field "is_important" d
       /\ actionDescription e = Some important_text)
      \/ (actionRequired e = Some (VBool false) /\ actionDescription e = None)).
Proof.
  unfold to_summary, bind. destruct (received_date_iso now d); try discriminate.
  intros H. inversion H. clear H. simpl. split; trivial.
  unfold js_or. destruct (truthy (field "is_important" d)) eqn:Ht; auto.
Qed.

(** X8.  For an email the gateway served, read at its declared type, the
    red box of the card is there exactly when [actionRequired] is true, and
    its text is then always "This email is marked as important.": the
    fallback text "No specific action provided." never shows. *)
Theorem action_box_shows_the_importance_text
        (db : Firestore) (now : Z) (emails : list EmailSummary)
        (e : EmailSummary) (c : CardStack.EmailSummary) :
  body (GET db now) = EmailsJson emails ->
  In e emails -> wire e = Some c ->
  EmailCard.action_box c
  = (if CardStack.actionRequired c then Some important_text else None)
  /\ EmailCard.action_box c <> Some "No specific action provided.".
Proof.
  intros HG He Hw. apply GET_emails in HG.
  destruct (Forall2_In_r _ _ _ e HG He) as [d [_ Hd]].
  apply to_summary_importance in Hd. destruct Hd as [_ Hd].
  unfold wire in Hw.
  destruct (id e) as [[ | | | | i | ] | ]; try discriminate.
  destruct (subject e) as [[ | | | | sj | ] | ]; try discriminate.
  destruct (sender e) as [[ | | | | sd | ] | ]; try discriminate.
  destruct (summary e) as [[ | | | | sm | ] | ]; try discriminate.
  destruct (fullContent e) as [[ | | | | fc | ] | ]; try discriminate.
  destruct (actionRequired e) as [[ | ar | | | | ] | ] eqn:Har; try discriminate.
  destruct (wire_status (status e)); try discriminate.
  inversion Hw. subst c. clear Hw. unfold EmailCard.action_box. simpl.
  destruct Hd as [[Ht [_ Hdesc]] | [Hf Hdesc]].
  - simpl in Ht. subst ar. rewrite Hdesc. simpl. split; [reflexivity | discriminate].
  - inversion Hf. subst ar. split; [reflexivity | discriminate].
Qed.

Lemma action_box_shows_the_importance_text_witness :
  match urgent_page, urgent_cards with
  | [e], [c] =>
      EmailCard.action_box c
      = (if CardStack.actionRequired c then Some important_text else None)
      /\ EmailCard.action_box c <> Some "No specific action provided."
  | _, _ => True
  end.
Proof.
  cbv beta iota delta [urgent_page urgent_cards].
  eapply (action_box_shows_the_importance_text
            (Online [mail_urgent]) sample_now urgent_page).
  - reflexivity.
  - simpl. auto.
  - reflexivity.
Defined.

(** ** Whole review sessions *)

Lemma visible_same (a b : CardStack.State) :
  CardStack.emails a = CardStack.emails b -> CardStack.visible a = CardStack.visible b.
Proof. unfold CardStack.visible. intros ->. reflexivity. Qed.

Lemma step_same_stack (a b : CardStack.State) (ev : Event) :
  same_stack a b -> same_stack (step a ev) (step b ev).
Proof.
  intros [He [Hx Hs]]. destruct ev as [action | emailId action | outcome]; simpl.
  - unfold CardStack.onAction. rewrite (visible_same a b He).
    destruct (CardStack.visible b).
    + unfold same_stack. simpl. rewrite He, Hs. auto.
    + unfold same_stack. auto.
  - unfold is_leaving. rewrite Hs.
    destruct (existsb _ (CardStack.sent b)).
    + unfold same_stack. simpl. rewrite He, Hs. auto.
    + unfold same_stack. auto.
  - unfold same_stack.
    destruct outcome as [[ | ] text | error]; simpl; auto.
Qed.

Lemma settle_same_stack (outcome : CardStack.FetchOutcome) (st : CardStack.State) :
  same_stack (CardStack.handleAction_settle outcome st) st.
Proof.
  unfold same_stack. destruct outcome as [[ | ] text | error]; simpl; auto.
Qed.

Lemma run_same_stack (evs : list Event) (a b : CardStack.State) :
  same_stack a b -> same_stack (run evs a) (run evs b).
Proof.
  revert a b. unfold run. induction evs as [ | ev rest IH]; simpl; trivial.
  intros a b H. apply IH, step_same_stack, H.
Qed.

(** X9.  What the server answers never reaches the stack: over any run of
    gestures and settled requests, the list of cards, the exit direction
    and the requests sent are what they would be had no request ever
    settled.  Only the console differs. *)
Theorem settled_requests_leave_no_trace (evs : list Event) (st : CardStack.State) :
  same_stack (run evs st) (run (filter is_user_action evs) st).
Proof.
  revert st. induction evs as [ | ev rest IH]; intros st.
  - unfold same_stack. auto.
  - destruct ev as [action | emailId action | outcome]; cbn [filter is_user_action].
    + apply IH.
    + apply IH.
    + change (run (FetchSettled outcome :: rest) st)
        with (run rest (CardStack.handleAction_settle outcome st)).
      destruct (run_same_stack rest _ _ (settle_same_stack outcome st)) as [H1 [H2 H3]].
      destruct (IH st) as [H4 [H5 H6]].
      unfold same_stack. rewrite H1, H2, H3. auto.
Qed.

(** With distinct ids, an action takes exactly the top card. *)
Lemma onAction_unique (st : CardStack.State) (l : list CardStack.EmailSummary)
      (e : CardStack.EmailSummary) (action : Action) :
  CardStack.emails st = (l ++ [e])%list ->
  NoDup (map CardStack.id (CardStack.emails st)) ->
  CardStack.emails (CardStack.onAction action st) = l
  /\ CardStack.sent (CardStack.onAction action st)
     = (CardStack.sent st ++ [(CardStack.id e, action)])%list.
Proof.
  intros Hl Hnd. unfold CardStack.onAction.
  rewrite (visible_last l e st Hl). simpl. split; trivial.
  rewrite Hl in *. rewrite map_app in Hnd. simpl in Hnd.
  apply NoDup_remove_2 in Hnd. rewrite app_nil_r in Hnd.
  rewrite filter_app. simpl. rewrite String.eqb_refl. simpl.
  rewrite app_nil_r. apply filter_keeps_all. intros x Hx.
  destruct (String.eqb_spec (CardStack.id x) (CardStack.id e)) as [Heq | Hne]; trivial.
  exfalso. apply Hnd. rewrite <- Heq. apply in_map, Hx.
Qed.


Lemma NoDup_ids_front (l : list CardStack.EmailSummary) (e : CardStack.EmailSummary) :
  NoDup (map CardStack.id (l ++ [e])%list) -> NoDup (map CardStack.id l).
Proof.
  rewrite map_app. simpl. intros H. apply NoDup_remove_1 in H.
  rewrite app_nil_r in H. exact H.
Qed.






Lemma review_in_order (actions : list Action) (st : CardStack.State) :
  NoDup (map CardStack.id (CardStack.emails st)) ->
  (List.length actions <= List.length (CardStack.emails st))%nat ->
  CardStack.emails (run (map UserAction actions) st)
  = firstn (List.length (CardStack.emails st) - List.length actions) (CardStack.emails st)
  /\ CardStack.sent (run (map UserAction actions) st)
     = (CardStack.sent st
          ++ combine (firstn (List.length actions)
                             (rev (map CardStack.id (CardStack.emails st))))
                     actions)%list.
Proof.
  revert st. unfold run.
  induction actions as [ | a rest IH]; intros st Hnd Hlen; cbn [map fold_left List.length].
  - rewrite Nat.sub_0_r, firstn_all. simpl. rewrite app_nil_r. auto.
  - cbn [List.length] in Hlen.
    destruct (CardStack.emails st) as [ | x l] eqn:Hl using rev_ind;
      [simpl in Hlen; lia | ].
    assert (Hnd' : NoDup (map CardStack.id (CardStack.emails st)))
      by (rewrite Hl; exact Hnd).
    destruct (onAction_unique st l x a Hl Hnd') as [He Hs].
    rewrite length_app in Hlen. simpl in Hlen.
    destruct (IH (CardStack.onAction a st)) as [IHe IHs].
    + rewrite He. apply (NoDup_ids_front l x Hnd).
    + rewrite He. lia.
    + cbn [step]. rewrite IHe, IHs, He, Hs. split.
      * rewrite length_app. simpl. rewrite firstn_app.
        replace (List.length l + 1 - S (List.length rest))%nat
          with (List.length l - List.length rest)%nat by lia.
        replace (List.length l - List.length rest - List.length l)%nat with 0%nat by lia.
        simpl. rewrite app_nil_r. reflexivity.
      * rewrite map_app, rev_app_distr. simpl. rewrite <- app_assoc. reflexivity.
Qed.

(** X11.  Stack discipline over a whole session: with distinct ids, [k]
    gestures one after the other (no more than there are cards), each made
    on the card the component shows at that moment, take the last [k] cards,
    last first; the first cards stay in their order, and the requests sent
    carry the ids in reverse list order, each with the action chosen for it.
    After as many such gestures as cards the list is empty and the closing
    notice shows.  (A gesture that lands on a card still leaving is the
    other event, [LeavingCardAction], and is not among these.) *)
Theorem session_reviews_from_the_end
        (cards : list CardStack.EmailSummary) (actions : list Action) :
  NoDup (map CardStack.id cards) ->
  (List.length actions <= List.length cards)%nat ->
  let st := run (map UserAction actions) (CardStack.initial cards) in
  CardStack.emails st = firstn (List.length cards - List.length actions) cards
  /\ CardStack.sent st
     = combine (firstn (List.length actions) (rev (map CardStack.id cards))) actions
  /\ (List.length actions = List.length cards ->
      CardStack.visible st = None /\ CardStack.all_reviewed st = true).
Proof.
  intros Hnd Hlen st.
  destruct (review_in_order actions (CardStack.initial cards) Hnd Hlen) as [He Hs].
  fold st in He, Hs. simpl in He, Hs. repeat split; trivial.
  - unfold CardStack.visible. rewrite He, H, Nat.sub_diag. reflexivity.
  - unfold CardStack.all_reviewed. rewrite He, H, Nat.sub_diag. reflexivity.
Qed.

Lemma session_reviews_from_the_end_witness :
  let st := run (map UserAction [keep; discard; flag]) (CardStack.initial sample_cards) in
  CardStack.emails st = firstn (List.length sample_cards - 3) sample_cards
  /\ CardStack.sent st
     = combine (firstn 3 (rev (map CardStack.id sample_cards))) [keep; discard; flag]
  /\ (3%nat = List.length sample_cards ->
      CardStack.visible st = None /\ CardStack.all_reviewed st = true).
Proof.
  apply (session_reviews_from_the_end sample_cards [keep; discard; flag]).
  - simpl. repeat constructor; simpl; intuition discriminate.
  - simpl. lia.
Defined.

Lemma step_request_ids (st : CardStack.State) (ev : Event) (r : string * Action) :
  In r (CardStack.sent (step st ev)) ->
  In (fst r) (map fst (CardStack.sent st))
  \/ In (fst r) (map CardStack.id (CardStack.emails st)).
Proof.
  destruct ev as [action | emailId action | outcome]; simpl.
  - unfold CardStack.onAction. destruct (CardStack.visible st) as [e | ] eqn:Hv.
    + simpl. intros H. apply in_app_or in H. destruct H as [H | [<- | []]].
      * left. apply in_map, H.
      * right. simpl. apply visible_inv in Hv. destruct Hv as [l Hl].
        rewrite Hl. apply in_map, in_or_app. simpl. auto.
    + intros H. left. apply in_map, H.
  - unfold is_leaving. destruct (existsb _ (CardStack.sent st)) eqn:Hex.
    + simpl. intros H. apply in_app_or in H. destruct H as [H | [<- | []]].
      * left. apply in_map, H.
      * left. simpl. apply existsb_exists in Hex. destruct Hex as [r' [Hr' Heq]].
        apply String.eqb_eq in Heq. rewrite <- Heq. apply in_map, Hr'.
    + intros H. left. apply in_map, H.
  - destruct outcome as [[ | ] text | error]; simpl; intros H; left; apply in_map, H.
Qed.

Lemma step_emails_subset (st : CardStack.State) (ev : Event) (x : CardStack.EmailSummary) :
  In x (CardStack.emails (step st ev)) -> In x (CardStack.emails st).
Proof. apply (run_only_removes [ev] st x). Qed.

Lemma run_request_ids (evs : list Event) (st : CardStack.State) (r : string * Action) :
  In r (CardStack.sent (run evs st)) ->
  In (fst r) (map fst (CardStack.sent st))
  \/ In (fst r) (map CardStack.id (CardStack.emails st)).
Proof.
  revert st r. unfold run. induction evs as [ | ev rest IH]; intros st r; simpl.
  - intros H. left. apply in_map, H.
  - intros H. apply IH in H. destruct H as [H | H].
    + apply in_map_iff in H. destruct H as [r' [Heq Hr']].
      rewrite <- Heq. exact (step_request_ids st ev r' Hr').
    + right. apply in_map_iff in H. destruct H as [x [<- Hx]].
      apply in_map, (step_emails_subset st ev x Hx).
Qed.

(** X12.  From the moment it is mounted, the stack never sends a request
    for an id it was not given: whatever the gestures, on the card on top or
    on a card still leaving, and however the requests settle, every request
    sent carries the id of one of the emails the stack was mounted with. *)
Theorem requests_name_fetched_cards
        (evs : list Event) (cards : list CardStack.EmailSummary) (r : string * Action) :
  In r (CardStack.sent (run evs (CardStack.initial cards))) ->
  In (fst r) (map CardStack.id cards).
Proof.
  intros H. apply run_request_ids in H. simpl in H. tauto.
Qed.

Lemma requests_name_fetched_cards_witness :
  In (fst ("m3", flag)) (map CardStack.id sample_cards).
Proof.
  apply (requests_name_fetched_cards
           [UserAction keep; LeavingCardAction "m3" flag] sample_cards ("m3", flag)).
  simpl. auto.
Defined.

(** X13.  The cards that remain keep their order: after any run the list is
    the list before it with some cards filtered out, never reordered and
    never added to. *)
Theorem remaining_cards_keep_their_order (evs : list Event) (st : CardStack.State) :
  exists stays : CardStack.EmailSummary -> bool,
    CardStack.emails (run evs st) = filter stays (CardStack.emails st).
Proof.
  revert st. unfold run. induction evs as [ | ev rest IH]; intros st; simpl.
  - exists (fun _ => true). symmetry. apply filter_keeps_all. trivial.
  - destruct (IH (step st ev)) as [p Hp]. rewrite Hp.
    destruct ev as [action | emailId action | outcome]; simpl.
    + unfold CardStack.onAction. destruct (CardStack.visible st) as [e | ].
      * simpl. rewrite filter_filter. eauto.
      * eauto.
    + destruct (is_leaving emailId st).
      * simpl. rewrite filter_filter. eauto.
      * eauto.
    + rewrite settle_keeps_emails. eauto.
Qed.

(** ** Gestures on the card *)

Module EmailCardFacts.
Import Stdlib.QArith.QArith.
Import Stdlib.micromega.Lqa.

Lemma gt_threshold (q : Q) :
  EmailCard.gt (EmailCard.Finite q) EmailCard.DRAG_THRESHOLD = true <-> 100 < q.
Proof.
  unfold EmailCard.gt, EmailCard.DRAG_THRESHOLD. rewrite negb_true_iff.
  destruct (Qle_bool q (100 # 1)) eqn:H.
  - apply Qle_bool_iff in H. split; [discriminate | lra].
  - split; trivial. intros _.
    destruct (Qlt_le_dec 100 q) as [Hlt | Hle]; trivial.
    apply Qle_bool_iff in Hle. unfold Qle_bool in *. simpl in *. congruence.
Qed.

Lemma lt_threshold (q : Q) :
  EmailCard.lt (EmailCard.Finite q) (- EmailCard.DRAG_THRESHOLD) = true <-> q < -100.
Proof.
  unfold EmailCard.lt, EmailCard.DRAG_THRESHOLD. rewrite negb_true_iff.
  destruct (Qle_bool (- (100 # 1)) q) eqn:H.
  - apply Qle_bool_iff in H. split; [discriminate | lra].
  - split; trivial. intros _.
    destruct (Qlt_le_dec q (-100)) as [Hlt | Hle]; trivial.
    assert (Hle' : - (100 # 1) <= q) by lra.
    apply Qle_bool_iff in Hle'. congruence.
Qed.

Lemma drag_thresholds_aux (q : Q) :
  (EmailCard.onDragEnd (EmailCard.Finite q) = Some keep <-> 100 < q)
  /\ (EmailCard.onDragEnd (EmailCard.Finite q) = Some discard <-> q < -100)
  /\ (EmailCard.onDragEnd (EmailCard.Finite q) = None <-> -100 <= q /\ q <= 100).
Proof.
  pose proof (gt_threshold q) as Hgt. pose proof (lt_threshold q) as Hlt.
  unfold EmailCard.onDragEnd.
  destruct (EmailCard.gt (EmailCard.Finite q) EmailCard.DRAG_THRESHOLD) eqn:G;
    destruct (EmailCard.lt (EmailCard.Finite q) (- EmailCard.DRAG_THRESHOLD)) eqn:L.
  - assert (100 < q) by (apply Hgt; reflexivity).
    assert (q < -100) by (apply Hlt; reflexivity). lra.
  - assert (100 < q) by (apply Hgt; reflexivity).
    repeat split; trivial; try discriminate; try lra; intros Hq;
      try (apply Hlt in Hq; discriminate); try (apply Hgt in Hq; discriminate).
  - assert (q < -100) by (apply Hlt; reflexivity).
    repeat split; trivial; try discriminate; try lra; intros Hq;
      try (apply Hlt in Hq; discriminate); try (apply Hgt in Hq; discriminate).
  - assert (~ 100 < q) by (intros Hq; apply Hgt in Hq; discriminate).
    assert (~ q < -100) by (intros Hq; apply Hlt in Hq; discriminate).
    repeat split; trivial; try discriminate; try lra; intros Hq;
      try (apply Hlt in Hq; discriminate); try (apply Hgt in Hq; discriminate).
Qed.

(** X14.  The drag handle of the card: letting go more than 100 px to the
    right of the start keeps, more than 100 px to the left discards, and
    anywhere from -100 to 100 px, both ends included, does nothing; a NaN
    offset does nothing either, and no drag ever flags. *)
Theorem drag_thresholds (q : Q) :
  (EmailCard.onDragEnd (EmailCard.Finite q) = Some keep <-> 100 < q)
  /\ (EmailCard.onDragEnd (EmailCard.Finite q) = Some discard <-> q < -100)
  /\ (EmailCard.onDragEnd (EmailCard.Finite q) = None <-> -100 <= q /\ q <= 100)
  /\ EmailCard.onDragEnd EmailCard.NaN = None
  /\ forall x, EmailCard.onDragEnd x <> Some flag.
Proof.
  destruct (drag_thresholds_aux q) as [Hk [Hd Hn]].
  split; [exact Hk | ]. split; [exact Hd | ]. split; [exact Hn | ].
  split; [reflexivity | ].
  intros x. unfold EmailCard.onDragEnd.
  destruct (EmailCard.gt x _); [discriminate | ].
  destruct (EmailCard.lt x _); discriminate.
Qed.

(** X15.  Gestures on the visible card, through to the stack: a drag let
    go beyond the threshold removes the card and sends its id with keep
    (right) or discard (left); a double click sends flag; a drag let go
    within 100 px and a click on the expand button change nothing in the
    stack, send nothing and log nothing. *)
Theorem gestures_reach_the_stack
        (q : Q) (st : CardStack.State) (e : CardStack.EmailSummary) :
  CardStack.visible st = Some e ->
  (100 < q ->
   gesture (EmailCard.DragEnd (EmailCard.Finite q)) st
   = CardStack.handleAction_begin (CardStack.id e) keep st)
  /\ (q < -100 ->
      gesture (EmailCard.DragEnd (EmailCard.Finite q)) st
      = CardStack.handleAction_begin (CardStack.id e) discard st)
  /\ (-100 <= q /\ q <= 100 ->
      gesture (EmailCard.DragEnd (EmailCard.Finite q)) st = st)
  /\ gesture EmailCard.DoubleClickCard st
     = CardStack.handleAction_begin (CardStack.id e) flag st
  /\ gesture EmailCard.DoubleClickHandle st
     = CardStack.handleAction_begin (CardStack.id e) flag st
  /\ gesture EmailCard.ClickExpand st = st.
Proof.
  intros Hv. destruct (drag_thresholds_aux q) as [Hk [Hd Hn]].
  unfold gesture, CardStack.onAction. simpl. rewrite Hv.
  repeat split; trivial.
  - intros Hq. apply Hk in Hq. rewrite Hq. reflexivity.
  - intros Hq. apply Hd in Hq. rewrite Hq. reflexivity.
  - intros Hq. apply Hn in Hq. rewrite Hq. reflexivity.
Qed.

Lemma gestures_reach_the_stack_witness :
  (100 < 150 ->
   gesture (EmailCard.DragEnd (EmailCard.Finite 150)) two_cards
   = CardStack.handleAction_begin (CardStack.id (card "m2")) keep two_cards)
  /\ (150 < -100 ->
      gesture (EmailCard.DragEnd (EmailCard.Finite 150)) two_cards
      = CardStack.handleAction_begin (CardStack.id (card "m2")) discard two_cards)
  /\ (-100 <= 150 /\ 150 <= 100 ->
      gesture (EmailCard.DragEnd (EmailCard.Finite 150)) two_cards = two_cards)
  /\ gesture EmailCard.DoubleClickCard two_cards
     = CardStack.handleAction_begin (CardStack.id (card "m2")) flag two_cards
  /\ gesture EmailCard.DoubleClickHandle two_cards
     = CardStack.handleAction_begin (CardStack.id (card "m2")) flag two_cards
  /\ gesture EmailCard.ClickExpand two_cards = two_cards.
Proof.
  apply (gestures_reach_the_stack 150 two_cards (card "m2")).
  reflexivity.
Defined.

End EmailCardFacts.

(** ** Loading the page *)

Lemma fetchEmails_failed (outcome : HomePage.FetchOutcome) (st : HomePage.State) :
  load_failed outcome = true ->
  HomePage.emails (HomePage.fetchEmails outcome st) = HomePage.emails st
  /\ HomePage.isLoading (HomePage.fetchEmails outcome st) = false.
Proof.
  destruct outcome as [error | [ | ] [error | data]]; simpl; auto; discriminate.
Qed.

(** X16.  A load that fails, in whichever way (the fetch is rejected, the
    answer is not [ok], its body cannot be read), ends the loading notice and
    mounts the stack with the empty list the page started with: no card, and
    the closing notice "All emails have been reviewed!", as for an empty
    inbox.  The failure itself goes to the console only. *)
Theorem failed_load_shows_all_reviewed (outcome : HomePage.FetchOutcome) :
  load_failed outcome = true ->
  exists stack,
    HomePage.render (HomePage.fetchEmails outcome HomePage.initial)
    = HomePage.StackView stack
    /\ CardStack.emails stack = []
    /\ CardStack.visible stack = None
    /\ CardStack.all_reviewed stack = true
    /\ List.length (HomePage.browser_console
                      (HomePage.fetchEmails outcome HomePage.initial)) = 1%nat.
Proof.
  intros H. exists (CardStack.initial []).
  destruct outcome as [error | [ | ] [error | data]]; try discriminate H;
    repeat split; reflexivity.
Qed.

Lemma failed_load_shows_all_reviewed_witness :
  exists stack,
    HomePage.render
      (HomePage.fetchEmails (HomePage.Responded false (inr None)) HomePage.initial)
    = HomePage.StackView stack
    /\ CardStack.emails stack = []
    /\ CardStack.visible stack = None
    /\ CardStack.all_reviewed stack = true
    /\ List.length (HomePage.browser_console
                      (HomePage.fetchEmails (HomePage.Responded false (inr None))
                                            HomePage.initial)) = 1%nat.
Proof.
  apply (failed_load_shows_all_reviewed (HomePage.Responded false (inr None))).
  reflexivity.
Defined.

(** X17.  Route and page together: whenever the gateway cannot serve (the
    store is unreachable, or one date on the page makes the callback throw),
    its 500 answer reaches the page as a response that is not [ok], and what
    the user sees is the empty stack with "All emails have been reviewed!". *)
Theorem gateway_failure_looks_like_empty_inbox (db : Firestore) (now : Z) :
  servable db = false ->
  exists outcome,
    deliver (GET db now) = Some outcome
    /\ load_failed outcome = true
    /\ HomePage.render (HomePage.fetchEmails outcome HomePage.initial)
       = HomePage.StackView (CardStack.initial []).
Proof.
  intros H. destruct (GET_not_servable db now H) as [error ->].
  exists (HomePage.Responded false (inr None)). repeat split.
Qed.

Lemma gateway_failure_looks_like_empty_inbox_witness :
  exists outcome,
    deliver (GET (Online [mail_m1; mail_odd_date; mail_m2]) sample_now) = Some outcome
    /\ load_failed outcome = true
    /\ HomePage.render (HomePage.fetchEmails outcome HomePage.initial)
       = HomePage.StackView (CardStack.initial []).
Proof.
  apply (gateway_failure_looks_like_empty_inbox
           (Online [mail_m1; mail_odd_date; mail_m2]) sample_now).
  reflexivity.
Defined.

Lemma gateway_status_of_body (db : Firestore) (now : Z) (emails : list EmailSummary) :
  body (GET db now) = EmailsJson emails -> http_status (GET db now) = 200.
Proof.
  unfold GET, GET_try, query_get, bind, ret, throw.
  destruct db as [docs | reason]; [ | discriminate].
  destruct (emails_query docs) as [ | d rest]; [reflexivity | ].
  destruct (map_exc (to_summary now) (d :: rest)); [discriminate | reflexivity].
Qed.

Lemma wire_all_Forall2 (es : list EmailSummary) (cards : list CardStack.EmailSummary) :
  wire_all es = Some cards -> Forall2 (fun e c => wire e = Some c) es cards.
Proof.
  revert cards. induction es as [ | e rest IH]; simpl; intros cards H.
  - inversion H. constructor.
  - destruct (wire e) as [c | ] eqn:Hc; try discriminate.
    destruct (wire_all rest) as [cs | ]; try discriminate.
    inversion H. constructor; auto.
Qed.

Lemma Forall2_last_l {A B : Type} (R : A -> B -> Prop) (l : list A) (a : A) (l' : list B) :
  Forall2 R (l ++ [a])%list l' ->
  exists m b, l' = (m ++ [b])%list /\ Forall2 R l m /\ R a b.
Proof.
  intros H. apply Forall2_app_inv_l in H.
  destruct H as [m [t [Hm [Ht ->]]]].
  inversion Ht as [ | ? b ? t' Hab Hnil]; subst. inversion Hnil; subst.
  exists m, b. auto.
Qed.

(** X18.  Route, page and stack together: when the gateway serves a page
    that reads at the declared type, the page mounts the stack with those
    cards in the order served, and the card shown first is the one of the
    last document of the page, whose [received_date] is no later than that
    of any other document on it: review starts with the oldest record of
    the page, not the newest. *)
Theorem first_card_is_the_oldest_of_the_page
        (docs : list DocumentData) (now : Z)
        (emails : list EmailSummary) (cards : list CardStack.EmailSummary) :
  body (GET (Online docs) now) = EmailsJson emails ->
  wire_all emails = Some cards ->
  exists outcome,
    deliver (GET (Online docs) now) = Some outcome
    /\ HomePage.render (HomePage.fetchEmails outcome HomePage.initial)
       = HomePage.StackView (CardStack.initial cards)
    /\ match rev (emails_query docs) with
       | [] => CardStack.visible (CardStack.initial cards) = None
       | oldest :: _ =>
           exists e c,
             to_summary now oldest = inr e
             /\ wire e = Some c
             /\ CardStack.visible (CardStack.initial cards) = Some c
             /\ forall d, In d (emails_query docs) -> date_desc d oldest
       end.
Proof.
  intros HG Hw.
  assert (Hok : http_status (GET (Online docs) now) = 200).
  { apply (gateway_status_of_body (Online docs) now emails HG). }
  exists (HomePage.Responded true (inr (Some cards))). split; [ | split].
  - unfold deliver, response_ok. rewrite HG, Hw, Hok. reflexivity.
  - reflexivity.
  - pose proof (GET_emails _ _ _ HG) as HF. simpl in HF.
    pose proof (emails_query_sorted docs) as Hs.
    assert (Hkeys : forall d, In d (emails_query docs) ->
                              has_field "received_date" d = true).
    { intros d Hd. apply emails_query_In in Hd. tauto. }
    apply wire_all_Forall2 in Hw.
    destruct (emails_query docs) as [ | d page] using rev_ind.
    + inversion HF. subst. inversion Hw. subst. reflexivity.
    + rewrite rev_app_distr. simpl.
      apply Forall2_last_l in HF. destruct HF as [es [e [-> [_ He]]]].
      apply Forall2_last_l in Hw. destruct Hw as [cs [c [-> [_ Hc]]]].
      exists e, c. repeat split; trivial.
      * apply (visible_last cs c). reflexivity.
      * intros x Hx. apply in_app_or in Hx. destruct Hx as [Hx | [<- | []]].
        -- apply (StronglySorted_app_inv _ _ _ Hs x d Hx). simpl. auto.
        -- apply date_desc_refl, Hkeys, in_or_app. simpl. auto.
Qed.

Lemma first_card_is_the_oldest_of_the_page_witness :
  exists outcome,
    deliver (GET (Online sample_store) sample_now) = Some outcome
    /\ HomePage.render (HomePage.fetchEmails outcome HomePage.initial)
       = HomePage.StackView (CardStack.initial sample_page_cards)
    /\ match rev (emails_query sample_store) with
       | [] => CardStack.visible (CardStack.initial sample_page_cards) = None
       | oldest :: _ =>
           exists e c,
             to_summary sample_now oldest = inr e
             /\ wire e = Some c
             /\ CardStack.visible (CardStack.initial sample_page_cards) = Some c
             /\ forall d, In d (emails_query sample_store) -> date_desc d oldest
       end.
Proof.
  apply (first_card_is_the_oldest_of_the_page
           sample_store sample_now sample_page sample_page_cards).
  - vm_compute. reflexivity.
  - vm_compute. reflexivity.
Defined.
